(** * xDS transport: version / nonce bookkeeping of the ADS stream

    A shallow embedding of [xds/internal/xdsclient/transport/transport.go].
    The three goroutines of a [Transport] (the ADS runner with its inlined
    receiver, the sender, and the callers of [SendRequest]) are embedded as
    the bodies of their loops; each body is a function on the transport's
    state, and a run of the program is a sequence of such steps.  What the
    program only observes from outside (the outcome of [stream.Send], the
    order in which [range] walks a map, [grpcDial], the default backoff) is
    collected in a record [Runtime]. *)

From stdpp Require Import base option list gmap strings fin_maps.
From Stdlib Require Import ZArith Lia.

Local Open Scope string_scope.
Local Open Scope list_scope.
Local Open Scope Z_scope.

(** ** Errors *)

(** The error kinds of [xdsresource]. *)
Inductive ErrorType : Type :=
  | ErrorTypeUnknown
  | ErrorTypeConnection
  | ErrorTypeResourceNotFound
  | ErrorTypeResourceTypeUnsupported.

#[global] Instance ErrorType_eq_dec : EqDecision ErrorType.
Proof. solve_decision. Defined.

(** Go [error] values that occur in the file: [errors.New], [fmt.Errorf]
    (the format with its string arguments and the error it renders with
    [%v]), the typed errors of the data model layer, and errors that come
    out of gRPC itself. *)
Inductive error : Type :=
  | errors_New (msg : string)
  | fmt_Errorf (format : string) (args : list string) (cause : error)
  | xdsClientError (t : ErrorType) (desc : string)
  | rpc_error (msg : string).

#[global] Instance error_eq_dec : EqDecision error.
Proof. solve_decision. Defined.

(** Modelled from the spec: [xdsresource.ErrType] is not part of this file.
    The update handler "returns nil for accept, a type-unsupported indicator
    for unknown types, or any other error for reject": the kind is carried
    by the data model layer's own errors, every other error (and nil) is of
    unknown kind. *)
Definition ErrType (e : option error) : ErrorType :=
  match e with
  | Some (xdsClientError t _) => t
  | _ => ErrorTypeUnknown
  end.

(** ** Go values *)

(** An [adsStream] is an interface value: [None] is nil, [Some s] is the
    stream object [s]; interface comparison is identity of the object. *)
Definition adsStream : Type := nat.

(** [m[k]] on a [map[string]string]: the zero value when the key is absent. *)
Definition go_index (m : gmap string string) (k : string) : string :=
  default "" (m !! k).

(** [v, ok := m[k]]. *)
Definition comma_ok {V} (zero : V) (o : option V) : V * bool :=
  match o with
  | Some v => (v, true)
  | None => (zero, false)
  end.

(** Go's [int] (64 bits) and its wrap-around on [++]. *)
Definition int_wrap (z : Z) : Z := (z + 2 ^ 63) `mod` 2 ^ 64 - 2 ^ 63.
Definition int_incr (z : Z) : Z := int_wrap (z + 1).
Definition int_max : Z := 2 ^ 63 - 1.

(** A buffered channel: its capacity and the values waiting in it.  A send
    on a full channel and a receive on an empty one block: [None]. *)
Record chan (A : Type) : Type := mkChan { chan_cap : nat; chan_buf : list A }.
Arguments mkChan {A} _ _.
Arguments chan_cap {A} _.
Arguments chan_buf {A} _.

Definition make_chan {A} (cap : nat) : chan A := mkChan cap [].

Definition chan_send {A} (x : A) (c : chan A) : option (chan A) :=
  if decide (length (chan_buf c) < chan_cap c)%nat
  then Some (mkChan (chan_cap c) (chan_buf c ++ [x]))
  else None.

Definition chan_recv {A} (c : chan A) : option (A * chan A) :=
  match chan_buf c with
  | x :: rest => Some (x, mkChan (chan_cap c) rest)
  | [] => None
  end.

(** [select { case <-c: default: }] *)
Definition chan_drain {A} (c : chan A) : chan A :=
  match chan_recv c with
  | Some (_, c') => c'
  | None => c
  end.

(** ** Messages *)

Record Status : Type := mkStatus { Code : Z; Message_of : error }.

Definition codes_InvalidArgument : Z := 3.

Record DiscoveryRequest : Type := mkDiscoveryRequest {
  Node : string;
  TypeUrl : string;
  ResourceNames : list string;
  VersionInfo : string;
  ResponseNonce : string;
  ErrorDetail : option Status
}.

Record DiscoveryResponse : Type := mkDiscoveryResponse {
  GetResources : list string;
  GetTypeUrl : string;
  GetVersionInfo : string;
  GetNonce : string
}.

Record ResourceUpdate : Type := mkResourceUpdate {
  Resources : list string;
  URL : string;
  Version : string
}.

Definition UpdateHandlerFunc : Type := ResourceUpdate -> option error.

Record resourceRequest : Type := mkResourceRequest {
  rr_resources : list string;
  rr_url : string
}.

Record ackRequest : Type := mkAckRequest {
  ack_url : string;
  ack_version : string;
  ack_nonce : string;
  ack_nackErr : option error;
  ack_stream : option adsStream
}.

(** What is pushed on [adsRequestCh]: the [u.(type)] of the sender's switch. *)
Inductive request : Type :=
  | ReqResource (r : resourceRequest)
  | ReqAck (a : ackRequest).

(** One call of [stream.Send] and what it returned. *)
Record SendCall : Type := mkSendCall {
  sc_stream : adsStream;
  sc_req : DiscoveryRequest;
  sc_err : option error
}.

(** ** The transport *)

Record Transport : Type := mkTransport {
  cc : nat;
  serverURI : string;
  updateHandler : UpdateHandlerFunc;
  backoff : Z -> Z;
  nodeProto : string;
  adsStreamCh : chan adsStream;
  adsRequestCh : list request;
  resources : gmap string (gmap string bool);
  versions : gmap string string;
  nonces : gmap string string;
  (* traces of the two outward effects: the calls of stream.Send, and the
     errors handed to adsStreamErrHandler, oldest first *)
  sent : list SendCall;
  reported : list error
}.

Definition set_adsStreamCh (c : chan adsStream) (t : Transport) : Transport :=
  mkTransport (cc t) (serverURI t) (updateHandler t) (backoff t) (nodeProto t)
    c (adsRequestCh t) (resources t) (versions t) (nonces t) (sent t) (reported t).

Definition set_adsRequestCh (q : list request) (t : Transport) : Transport :=
  mkTransport (cc t) (serverURI t) (updateHandler t) (backoff t) (nodeProto t)
    (adsStreamCh t) q (resources t) (versions t) (nonces t) (sent t) (reported t).

Definition set_resources (r : gmap string (gmap string bool)) (t : Transport) : Transport :=
  mkTransport (cc t) (serverURI t) (updateHandler t) (backoff t) (nodeProto t)
    (adsStreamCh t) (adsRequestCh t) r (versions t) (nonces t) (sent t) (reported t).

Definition set_versions (v : gmap string string) (t : Transport) : Transport :=
  mkTransport (cc t) (serverURI t) (updateHandler t) (backoff t) (nodeProto t)
    (adsStreamCh t) (adsRequestCh t) (resources t) v (nonces t) (sent t) (reported t).

Definition set_nonces (n : gmap string string) (t : Transport) : Transport :=
  mkTransport (cc t) (serverURI t) (updateHandler t) (backoff t) (nodeProto t)
    (adsStreamCh t) (adsRequestCh t) (resources t) (versions t) n (sent t) (reported t).

Definition set_sent (s : list SendCall) (t : Transport) : Transport :=
  mkTransport (cc t) (serverURI t) (updateHandler t) (backoff t) (nodeProto t)
    (adsStreamCh t) (adsRequestCh t) (resources t) (versions t) (nonces t) s (reported t).

Definition set_reported (r : list error) (t : Transport) : Transport :=
  mkTransport (cc t) (serverURI t) (updateHandler t) (backoff t) (nodeProto t)
    (adsStreamCh t) (adsRequestCh t) (resources t) (versions t) (nonces t) (sent t) r.

(** [t.adsStreamErrHandler(err)] *)
Definition adsStreamErrHandler (e : error) (t : Transport) : Transport :=
  set_reported (reported t ++ [e]) t.

(** Modelled from the spec: [buffer.Unbounded] is not part of this file.  It
    is "an unbounded, ordered, single-consumer queue": [Put] appends, and
    [Get] hands out the oldest element. *)
Definition adsRequestCh_Put (u : request) (t : Transport) : Transport :=
  set_adsRequestCh (adsRequestCh t ++ [u]) t.

(** ** Options *)

Record ServerConfig : Type := mkServerConfig {
  ServerURI : string;
  Creds : option string
}.

Record Options : Type := mkOptions {
  ServerCfg : ServerConfig;
  UpdateHandler : option UpdateHandlerFunc;
  StreamErrorHandler : option (error -> unit);
  Backoff : option (Z -> Z);
  NodeProto : string
}.

(** ** What the program observes from outside *)

Record Runtime : Type := mkRuntime {
  (* for k, v := range m: every entry once, in an order of Go's choosing *)
  go_range : forall V, gmap string V -> list (string * V);
  go_range_perm : forall V (m : gmap string V), go_range V m ≡ₚ map_to_list m;
  (* stream.Send(req), given the calls made before it *)
  stream_Send : list SendCall -> adsStream -> DiscoveryRequest -> option error;
  (* var grpcDial = grpc.Dial *)
  grpcDial : string -> list string -> nat + error;
  (* backoff.DefaultExponential.Backoff *)
  DefaultExponential_Backoff : Z -> Z
}.
Arguments go_range _ {V} _.

(** ** The sender *)

Section Operations.
Context (rt : Runtime).

Definition mapToSlice (m : gmap string bool) : list string :=
  (go_range rt m).*1.

Definition sliceToMap (ss : list string) : gmap string bool :=
  foldl (fun ret s => <[s := true]> ret) ∅ ss.

(** [sendAggregatedDiscoveryServiceRequest]: builds the request, calls
    [stream.Send] and returns its error (wrapped). *)
Definition sendAggregatedDiscoveryServiceRequest
    (stream : adsStream) (resourceNames : list string)
    (resourceURL version nonce : string) (nackErr : option error)
    (t : Transport) : Transport * option error :=
  let req := mkDiscoveryRequest (nodeProto t) resourceURL resourceNames version nonce
               (match nackErr with
                | Some e => Some (mkStatus codes_InvalidArgument e)
                | None => None
                end) in
  let err := stream_Send rt (sent t) stream req in
  let t := set_sent (sent t ++ [mkSendCall stream req err]) t in
  match err with
  | Some e => (t, Some (fmt_Errorf "sending ADS request %s failed: %v" [] e))
  | None => (t, None)
  end.

(** The [for url, resources := range t.resources] of [sendExisting], with
    its early return. *)
Fixpoint sendExisting_range (stream : adsStream)
    (entries : list (string * gmap string bool)) (t : Transport)
    : Transport * bool :=
  match entries with
  | [] => (t, true)
  | (url, names) :: rest =>
      let '(t, err) :=
        sendAggregatedDiscoveryServiceRequest stream (mapToSlice names) url
          (go_index (versions t) url) "" None t in
      match err with
      | Some _ => (t, false)
      | None => sendExisting_range stream rest t
      end
  end.

Definition sendExisting (stream : adsStream) (t : Transport) : Transport * bool :=
  let t := set_nonces ∅ t in
  sendExisting_range stream (go_range rt (resources t)) t.

Definition processResourceRequest (req : resourceRequest) (t : Transport)
    : Transport * (list string * string * string * string) :=
  let names := sliceToMap (rr_resources req) in
  let t := set_resources (<[rr_url req := names]> (resources t)) t in
  (t, (rr_resources req, rr_url req,
       go_index (versions t) (rr_url req), go_index (nonces t) (rr_url req))).

Definition processAckRequest (ack : ackRequest) (stream : option adsStream)
    (t : Transport)
    : Transport * (list string * string * string * string * bool) :=
  if negb (bool_decide (ack_stream ack = stream)) then
    (t, ([], "", "", "", false))
  else
    let nonce := ack_nonce ack in
    let t := set_nonces (<[ack_url ack := nonce]> (nonces t)) t in
    let '(s, ok) := comma_ok ∅ (resources t !! ack_url ack) in
    if negb ok || bool_decide (size s = 0%nat) then
      (t, ([], "", "", "", false))
    else
      let names := mapToSlice s in
      let t := match ack_nackErr ack with
               | None => set_versions (<[ack_url ack := ack_version ack]> (versions t)) t
               | Some _ => t
               end in
      (t, (names, ack_url ack, ack_version ack, nonce, true)).

(** The tail of the request case of [send]: skip without a stream, else
    send, and clear the stream when the send fails. *)
Definition send_on_stream (stream : option adsStream)
    (names : list string) (url version nonce : string)
    (nackErr : option error) (t : Transport) : option adsStream * Transport :=
  match stream with
  | None => (None, t)
  | Some s =>
      let '(t, err) :=
        sendAggregatedDiscoveryServiceRequest s names url version nonce nackErr t in
      match err with
      | Some _ => (None, t)
      | None => (Some s, t)
      end
  end.

(** [case u := <-t.adsRequestCh.Get()] with [u] already taken off the
    queue. *)
Definition send_request (u : request) (stream : option adsStream)
    (t : Transport) : option adsStream * Transport :=
  match u with
  | ReqResource update =>
      let '(t, (names, url, version, nonce)) := processResourceRequest update t in
      send_on_stream stream names url version nonce None t
  | ReqAck update =>
      let '(t, (names, url, version, nonce, send)) :=
        processAckRequest update stream t in
      if negb send then (stream, t)
      else send_on_stream stream names url version nonce (ack_nackErr update) t
  end.

(** The cases of the sender's [select]. *)
Inductive SelectCase : Type := CaseDone | CaseStream | CaseRequest.

#[global] Instance SelectCase_eq_dec : EqDecision SelectCase.
Proof. solve_decision. Defined.

(** What a loop body does to its loop. *)
Inductive LoopCtl : Type := Continue | Return.

(** One iteration of [send]: [None] when the chosen case is not ready.  The
    sender's local variable [stream] is threaded with the transport. *)
Definition send_iter (c : SelectCase) (stream : option adsStream)
    (t : Transport) : option (LoopCtl * option adsStream * Transport) :=
  match c with
  | CaseDone => Some (Return, stream, t)
  | CaseStream =>
      match chan_recv (adsStreamCh t) with
      | None => None
      | Some (s, ch) =>
          let t := set_adsStreamCh ch t in
          let '(t, ok) := sendExisting s t in
          Some (Continue, (if ok then Some s else None), t)
      end
  | CaseRequest =>
      match adsRequestCh t with
      | [] => None
      | u :: rest =>
          let t := set_adsRequestCh rest t in
          let '(stream, t) := send_request u stream t in
          Some (Continue, stream, t)
      end
  end.

(** [SendRequest] *)
Definition SendRequest (url : string) (names : list string) (t : Transport)
    : Transport :=
  adsRequestCh_Put (ReqResource (mkResourceRequest names url)) t.

(** ** The receiver *)

(** What [stream.Recv] returns. *)
Inductive RecvResult : Type :=
  | RecvOk (resp : DiscoveryResponse)
  | RecvErr (err : error).

Definition recvAggregatedDiscoveryServiceResponse (r : RecvResult)
    : list string * string * string * string * option error :=
  match r with
  | RecvErr err =>
      ([], "", "", "", Some (fmt_Errorf "failed to read ADS response: %v" [] err))
  | RecvOk resp =>
      (GetResources resp, GetTypeUrl resp, GetVersionInfo resp, GetNonce resp, None)
  end.

(** The body of the loop of [recv] on one read: the transport, the variable
    [msgReceived], and whether the loop goes on. *)
Definition recv_iter (stream : adsStream) (r : RecvResult)
    (msgReceived : bool) (t : Transport) : LoopCtl * bool * Transport :=
  let '(res, url, rVersion, nonce, err) :=
    recvAggregatedDiscoveryServiceResponse r in
  match err with
  | Some e => (Return, msgReceived, adsStreamErrHandler e t)
  | None =>
      let msgReceived := true in
      let err := updateHandler t (mkResourceUpdate res url rVersion) in
      if decide (ErrType err = ErrorTypeResourceTypeUnsupported) then
        (Continue, msgReceived, t)
      else
        match err with
        | Some e =>
            (Continue, msgReceived,
             adsRequestCh_Put
               (ReqAck (mkAckRequest url (go_index (versions t) url) nonce
                          (Some e) (Some stream))) t)
        | None =>
            (Continue, msgReceived,
             adsRequestCh_Put
               (ReqAck (mkAckRequest url rVersion nonce None (Some stream))) t)
        end
  end.

(** The life of one stream as the receiver sees it: the responses it
    delivers, then the error that ends it. *)
Record StreamLife : Type := mkStreamLife {
  responses : list DiscoveryResponse;
  closeErr : error
}.

Fixpoint recv_loop (stream : adsStream) (resps : list DiscoveryResponse)
    (closing : error) (msgReceived : bool) (t : Transport) : bool * Transport :=
  match resps with
  | [] =>
      let '(_, msgReceived, t) := recv_iter stream (RecvErr closing) msgReceived t in
      (msgReceived, t)
  | resp :: rest =>
      let '(ctl, msgReceived, t) := recv_iter stream (RecvOk resp) msgReceived t in
      match ctl with
      | Return => (msgReceived, t)
      | Continue => recv_loop stream rest closing msgReceived t
      end
  end.

Definition recv (stream : adsStream) (life : StreamLife) (t : Transport)
    : bool * Transport :=
  recv_loop stream (responses life) (closeErr life) false t.

(** ** The ADS runner *)

(** The state of the runner's loop. *)
Record Runner : Type := mkRunner {
  backoffAttempt : Z;
  backoffTimer : Z
}.

Definition adsRunner_init : Runner := mkRunner 0 0.

(** Lines 315-319: empty the slot without blocking, then push. *)
Definition publish (stream : adsStream) (t : Transport) : option Transport :=
  let t := set_adsStreamCh (chan_drain (adsStreamCh t)) t in
  match chan_send stream (adsStreamCh t) with
  | Some ch => Some (set_adsStreamCh ch t)
  | None => None
  end.

(** The closure [resetBackoff]: [attempt] is what
    [newAggregatedDiscoveryServiceStream] returned, with the life of the
    stream when there is one.  [None] when the push blocks. *)
Definition resetBackoff (attempt : (adsStream * StreamLife) + error)
    (t : Transport) : option (bool * Transport) :=
  match attempt with
  | inr err => Some (false, adsStreamErrHandler err t)
  | inl (stream, life) =>
      match publish stream t with
      | None => None
      | Some t => Some (recv stream life t)
      end
  end.

(** Lines 323-329: the timer and the attempt counter after an attempt. *)
Definition after_attempt (reset : bool) (r : Runner) (t : Transport) : Runner :=
  if reset then mkRunner 0 0
  else mkRunner (int_incr (backoffAttempt r)) (backoff t (backoffAttempt r)).

(** One iteration of the loop of [adsRunner], after the timer fired. *)
Definition adsRunner_iter (attempt : (adsStream * StreamLife) + error)
    (r : Runner) (t : Transport) : option (Runner * Transport) :=
  match resetBackoff attempt t with
  | None => None
  | Some (reset, t) => Some (after_attempt reset r t, t)
  end.

(** ** Construction *)

Definition New (opts : Options) : Transport + error :=
  if decide (ServerURI (ServerCfg opts) = "") then
    inr (errors_New "missing server URI when creating a new transport")
  else match Creds (ServerCfg opts) with
  | None => inr (errors_New "missing credentials when creating a new transport")
  | Some creds =>
  match UpdateHandler opts with
  | None => inr (errors_New "missing update handler when creating a new transport")
  | Some handler =>
  match StreamErrorHandler opts with
  | None => inr (errors_New "missing stream error handler when creating a new transport")
  | Some _ =>
      let dopts := [creds; "WithKeepaliveParams"] in
      match grpcDial rt (ServerURI (ServerCfg opts)) dopts with
      | inr err =>
          inr (fmt_Errorf
                 "failed to create a transport to the management server %q: %v"
                 [ServerURI (ServerCfg opts)] err)
      | inl conn =>
          let boff := match Backoff opts with
                      | None => DefaultExponential_Backoff rt
                      | Some b => b
                      end in
          inl (mkTransport conn (ServerURI (ServerCfg opts)) handler boff
                 (NodeProto opts) (make_chan 1) [] ∅ ∅ ∅ [] [])
      end
  end end end.

(** ** The program as a transition system

    The goroutines interleave at the granularity of their channel
    operations and of the critical sections under [t.mu]. *)

(** Where the runner is in its loop. *)
Inductive RunnerPc : Type :=
  | AtTimer                                  (* line 297, waiting *)
  | AtDrain (s : adsStream)                  (* line 315, stream created *)
  | AtPush (s : adsStream)                   (* line 319 *)
  | AtRecv (s : adsStream) (msgReceived : bool)   (* inside recv *)
  | Exited.

Record Sys : Type := mkSys {
  sys_t : Transport;
  ctx_done : bool;                    (* adsRunnerCancel was called *)
  sender_stream : option adsStream;   (* the variable stream of send *)
  sender_exited : bool;
  runner_pc : RunnerPc;
  runner : Runner;
  published : list adsStream          (* the handles pushed so far, newest first *)
}.

Definition sys_init (t : Transport) : Sys :=
  mkSys t false None false AtTimer adsRunner_init [].

Inductive Event : Type :=
  | EvSendRequest (url : string) (names : list string)
  | EvCancel
  | EvSender (c : SelectCase)
  | EvNewStream (r : adsStream + error)
  | EvDrain
  | EvPush
  | EvRecv (r : RecvResult)
  | EvRunnerExit.

Definition sys_step (e : Event) (y : Sys) : option Sys :=
  match e with
  | EvSendRequest url names =>
      Some (mkSys (SendRequest url names (sys_t y)) (ctx_done y) (sender_stream y)
              (sender_exited y) (runner_pc y) (runner y) (published y))
  | EvCancel =>
      Some (mkSys (sys_t y) true (sender_stream y) (sender_exited y)
              (runner_pc y) (runner y) (published y))
  | EvSender c =>
      if sender_exited y then None
      else if bool_decide (c = CaseDone) && negb (ctx_done y) then None
      else
        match send_iter c (sender_stream y) (sys_t y) with
        | None => None
        | Some (ctl, stream, t) =>
            Some (mkSys t (ctx_done y) stream
                    (match ctl with Return => true | Continue => false end)
                    (runner_pc y) (runner y) (published y))
        end
  | EvNewStream r =>
      match runner_pc y with
      | AtTimer =>
          match r with
          | inl s =>
              Some (mkSys (sys_t y) (ctx_done y) (sender_stream y) (sender_exited y)
                      (AtDrain s) (runner y) (published y))
          | inr err =>
              let t := adsStreamErrHandler err (sys_t y) in
              Some (mkSys t (ctx_done y) (sender_stream y) (sender_exited y)
                      AtTimer (after_attempt false (runner y) t) (published y))
          end
      | _ => None
      end
  | EvDrain =>
      match runner_pc y with
      | AtDrain s =>
          Some (mkSys (set_adsStreamCh (chan_drain (adsStreamCh (sys_t y))) (sys_t y))
                  (ctx_done y) (sender_stream y) (sender_exited y)
                  (AtPush s) (runner y) (published y))
      | _ => None
      end
  | EvPush =>
      match runner_pc y with
      | AtPush s =>
          match chan_send s (adsStreamCh (sys_t y)) with
          | None => None
          | Some ch =>
              Some (mkSys (set_adsStreamCh ch (sys_t y))
                      (ctx_done y) (sender_stream y) (sender_exited y)
                      (AtRecv s false) (runner y) (s :: published y))
          end
      | _ => None
      end
  | EvRecv r =>
      match runner_pc y with
      | AtRecv s msgReceived =>
          let '(ctl, msgReceived, t) := recv_iter s r msgReceived (sys_t y) in
          match ctl with
          | Continue =>
              Some (mkSys t (ctx_done y) (sender_stream y) (sender_exited y)
                      (AtRecv s msgReceived) (runner y) (published y))
          | Return =>
              Some (mkSys t (ctx_done y) (sender_stream y) (sender_exited y)
                      AtTimer (after_attempt msgReceived (runner y) t) (published y))
          end
      | _ => None
      end
  | EvRunnerExit =>
      match runner_pc y with
      | AtTimer =>
          if ctx_done y then
            Some (mkSys (sys_t y) (ctx_done y) (sender_stream y) (sender_exited y)
                    Exited (runner y) (published y))
          else None
      | _ => None
      end
  end.

Fixpoint sys_run (es : list Event) (y : Sys) : option Sys :=
  match es with
  | [] => Some y
  | e :: es =>
      match sys_step e y with
      | Some y => sys_run es y
      | None => None
      end
  end.

End Operations.

(** * Vocabulary of the properties *)

(** The type has names subscribed: an entry that is not empty. *)
Definition subscribed (t : Transport) (url : string) : bool :=
  match resources t !! url with
  | Some s => negb (bool_decide (size s = 0%nat))
  | None => false
  end.

(** The verdict of the update handler on a response. *)
Definition verdict (t : Transport) (resp : DiscoveryResponse) : option error :=
  updateHandler t
    (mkResourceUpdate (GetResources resp) (GetTypeUrl resp) (GetVersionInfo resp)).

(** The invariant of the slot: capacity one; what waits in it is the handle
    pushed last; and it is empty when the runner is about to push. *)
Definition slot_inv (y : Sys) : Prop :=
  let ch := adsStreamCh (sys_t y) in
  chan_cap ch = 1%nat ∧
  (chan_buf ch = [] ∨ ∃ s, chan_buf ch = [s] ∧ head (published y) = Some s) ∧
  (∀ s, runner_pc y = AtPush s → chan_buf ch = []).

Section Vocabulary.
Context (rt : Runtime).

(** The request [sendExisting] builds for an entry of the subscriptions. *)
Definition existing_request (t : Transport) (e : string * gmap string bool)
    : DiscoveryRequest :=
  mkDiscoveryRequest (nodeProto t) e.1 (mapToSlice rt e.2)
    (go_index (versions t) e.1) "" None.

(** The sender taking [n] requests off the queue, one after the other. *)
Fixpoint send_requests (n : nat) (stream : option adsStream) (t : Transport)
    : option (option adsStream * Transport) :=
  match n with
  | O => Some (stream, t)
  | S n =>
      match send_iter rt CaseRequest stream t with
      | Some (_, stream, t) => send_requests n stream t
      | None => None
      end
  end.

Definition subscribe_request (url : string) (names : list string) : request :=
  ReqResource (mkResourceRequest names url).

End Vocabulary.

(** ** Vocabulary of the further properties *)

(** The request the receiver enqueues for a response, if any, with the
    handler [h] and the versions [v] of the transport. *)
Definition ack_for (h : UpdateHandlerFunc) (v : gmap string string)
    (stream : adsStream) (resp : DiscoveryResponse) : option request :=
  let err := h (mkResourceUpdate (GetResources resp) (GetTypeUrl resp)
                  (GetVersionInfo resp)) in
  if decide (ErrType err = ErrorTypeResourceTypeUnsupported) then None
  else
    Some (ReqAck
            (mkAckRequest (GetTypeUrl resp)
               (match err with
                | Some _ => go_index v (GetTypeUrl resp)
                | None => GetVersionInfo resp
                end)
               (GetNonce resp) err (Some stream))).

(** The message [sendAggregatedDiscoveryServiceRequest] hands to [Send]. *)
Definition wire_request (t : Transport) (url : string) (names : list string)
    (version nonce : string) (nackErr : option error) : DiscoveryRequest :=
  mkDiscoveryRequest (nodeProto t) url names version nonce
    (mkStatus codes_InvalidArgument <$> nackErr).

(** A request that carries an error detail names resources. *)
Definition nack_has_names (c : SendCall) : Prop :=
  ErrorDetail (sc_req c) ≠ None → ResourceNames (sc_req c) ≠ [].

(** Every stream the program works with is one the runner pushed: the
    stream of the sender, the streams of the calls of [Send], the streams
    the queued ACK/NACK requests are tagged with, the stream of the
    receiver, and what waits in the slot. *)
Definition streams_published (y : Sys) : Prop :=
  (∀ s, sender_stream y = Some s → s ∈ published y) ∧
  Forall (fun c => sc_stream c ∈ published y) (sent (sys_t y)) ∧
  Forall (fun u => ∀ a, u = ReqAck a →
                        ∃ s, ack_stream a = Some s ∧ s ∈ published y)
         (adsRequestCh (sys_t y)) ∧
  (∀ s b, runner_pc y = AtRecv s b → s ∈ published y) ∧
  (∀ s, s ∈ chan_buf (adsStreamCh (sys_t y)) → s ∈ published y).

(** The subscribe calls of a run, in the order they were made. *)
Definition calls_made (es : list Event) : list resourceRequest :=
  omap (fun e => match e with
                 | EvSendRequest url names => Some (mkResourceRequest names url)
                 | _ => None
                 end) es.

(** The subscribe requests that wait in the queue, oldest first. *)
Definition pending_subscribes (q : list request) : list resourceRequest :=
  omap (fun u => match u with
                 | ReqResource r => Some r
                 | ReqAck _ => None
                 end) q.

(** The names of the last request of a list that is for the type. *)
Definition last_names (url : string) (l : list resourceRequest)
    : option (list string) :=
  last (omap (fun r => if decide (rr_url r = url) then Some (rr_resources r)
                       else None) l).

(** The sender is about to take a request of the given shape. *)
Definition takes_subscribe (e : Event) (y : Sys) : Prop :=
  e = EvSender CaseRequest ∧
  ∃ r rest, adsRequestCh (sys_t y) = ReqResource r :: rest.

Definition takes_ack (e : Event) (y : Sys) : Prop :=
  e = EvSender CaseRequest ∧
  ∃ a rest, adsRequestCh (sys_t y) = ReqAck a :: rest ∧
            ack_stream a = sender_stream y.

Definition takes_stream (e : Event) (y : Sys) : Prop :=
  e = EvSender CaseStream.

(** *** The life of a stream under interleaving *)




Section LifePuts.
Context (rt : Runtime).


End LifePuts.

(** *** [Close]

    [Close] calls [adsRunnerCancel], waits for [adsRunnerDoneCh] (closed by
    the runner when it returns), and closes the connection.  The program
    with the callers of [Close]: how many of them wait, and whether
    [cc.Close] was called. *)
Record SysC : Type := mkSysC {
  sysc : Sys;
  close_waiting : nat;
  cc_closed : bool
}.

Definition sysc_init (t : Transport) : SysC := mkSysC (sys_init t) 0 false.

Inductive EventC : Type :=
  | EvProg (e : Event)      (* a step of the program, [EvCancel] apart *)
  | EvCloseCancel           (* line 559 *)
  | EvCloseDone.            (* lines 560-561 *)

Section CloseSteps.
Context (rt : Runtime).

Definition sysc_step (e : EventC) (z : SysC) : option SysC :=
  match e with
  | EvProg EvCancel => None
  | EvProg e =>
      (fun y => mkSysC y (close_waiting z) (cc_closed z)) <$> sys_step rt e (sysc z)
  | EvCloseCancel =>
      (fun y => mkSysC y (S (close_waiting z)) (cc_closed z))
        <$> sys_step rt EvCancel (sysc z)
  | EvCloseDone =>
      match close_waiting z, runner_pc (sysc z) with
      | S n, Exited => Some (mkSysC (sysc z) n true)
      | _, _ => None
      end
  end.

Fixpoint sysc_run (es : list EventC) (z : SysC) : option SysC :=
  match es with
  | [] => Some z
  | e :: es =>
      match sysc_step e z with
      | Some z => sysc_run es z
      | None => None
      end
  end.

End CloseSteps.

(** ** Concrete runtimes, transports and messages *)

(** [range] in the order of [map_to_list]; every [Send] succeeds; the dial
    succeeds. *)
Definition rt_ok : Runtime :=
  mkRuntime (fun V m => map_to_list m) (fun V m => reflexivity _)
    (fun _ _ _ => None) (fun _ _ => inl 7%nat) (fun n => 1000 * (n + 1)).

(** As [rt_ok], but every [Send] fails and so does the dial. *)
Definition rt_broken : Runtime :=
  mkRuntime (fun V m => map_to_list m) (fun V m => reflexivity _)
    (fun _ _ _ => Some (rpc_error "EOF"))
    (fun _ _ => inr (rpc_error "bad target")) (fun n => 1000 * (n + 1)).

Definition accept_all : UpdateHandlerFunc := fun _ => None.
Definition reject_all : UpdateHandlerFunc :=
  fun _ => Some (errors_New "invalid resource").
Definition unsupported_all : UpdateHandlerFunc :=
  fun _ => Some (xdsClientError ErrorTypeResourceTypeUnsupported "unknown type").

Definition opts_ok : Options :=
  mkOptions (mkServerConfig "xds.example.com:443" (Some "insecure"))
    (Some accept_all) (Some (fun _ => tt)) None "node-1".

(** The transport right after construction. *)
Definition t_new (handler : UpdateHandlerFunc) : Transport :=
  mkTransport 7 "xds.example.com:443" handler (fun n => 1000 * (n + 1))
    "node-1" (make_chan 1) [] ∅ ∅ ∅ [] [].

(** Type [A] subscribed with names [x], [y]; type [B] with [z]. *)
Definition t_AB : Transport :=
  set_resources (<["A" := sliceToMap ["x"; "y"]]> (<["B" := sliceToMap ["z"]]> ∅))
    (t_new accept_all).

(** An ACK for type [A], version [1], nonce [n1], made on stream [1]. *)
Definition ack_A1 : ackRequest := mkAckRequest "A" "1" "n1" None (Some 1%nat).

(** A NACK for type [A] reporting version [0], made on stream [1]. *)
Definition nack_A0 : ackRequest :=
  mkAckRequest "A" "0" "n1" (Some (errors_New "invalid resource")) (Some 1%nat).

(** A response for type [A], version [1], nonce [n1]. *)
Definition resp_A1 : DiscoveryResponse := mkDiscoveryResponse ["payload"] "A" "1" "n1".

(** The events of a subscription made before the first stream is there. *)
Definition subscribe_then_connect : list Event :=
  [EvSendRequest "A" ["x"; "y"]; EvSender CaseRequest;
   EvNewStream (inl 1%nat); EvDrain; EvPush; EvSender CaseStream].

(** Options whose update handler rejects every update. *)
Definition opts_reject : Options :=
  mkOptions (mkServerConfig "xds.example.com:443" (Some "insecure"))
    (Some reject_all) (Some (fun _ => tt)) None "node-1".

(** A subscription to [A], a stream, a response that is rejected, and the
    NACK taken by the sender. *)
Definition subscribe_connect_nack : list Event :=
  subscribe_then_connect ++ [EvRecv (RecvOk resp_A1); EvSender CaseRequest].

(** Two subscriptions to [A]; the sender has taken the first one only
    when the stream comes. *)
Definition subscribe_twice_then_connect : list Event :=
  [EvSendRequest "A" ["x"]; EvSender CaseRequest; EvSendRequest "A" ["y"];
   EvNewStream (inl 1%nat); EvDrain; EvPush; EvSender CaseStream].

(** Two subscriptions to [A], both taken by the sender, then a stream. *)
Definition subscribe_twice_taken : list Event :=
  [EvSendRequest "A" ["x"]; EvSender CaseRequest;
   EvSendRequest "A" ["z"; "z"]; EvSender CaseRequest;
   EvNewStream (inl 1%nat); EvDrain; EvPush].



(** The requests for [A]; the [range] of [rt_ok] walks [y] before [x]. *)
Definition request_A (version nonce : string) (detail : option Status)
    : DiscoveryRequest :=
  mkDiscoveryRequest "node-1" "A" ["y"; "x"] version nonce detail.

(** * Properties *)

Example New_opts_ok : New rt_ok opts_ok = inl (t_new accept_all).
Proof. reflexivity. Qed.

(** ** Frame lemmas: what the operations leave alone *)

Section Frames.
Context (rt : Runtime).

Lemma sendADS_frame stream names url version nonce nackErr t :
  let t' := (sendAggregatedDiscoveryServiceRequest rt stream names url version
               nonce nackErr t).1 in
  resources t' = resources t ∧ versions t' = versions t ∧ nonces t' = nonces t ∧
  adsStreamCh t' = adsStreamCh t ∧ adsRequestCh t' = adsRequestCh t ∧
  backoff t' = backoff t ∧ nodeProto t' = nodeProto t ∧
  updateHandler t' = updateHandler t ∧ reported t' = reported t.
Proof.
  unfold sendAggregatedDiscoveryServiceRequest.
  destruct (stream_Send rt (sent t) stream _); simpl; repeat split.
Qed.

Lemma sendADS_sent stream names url version nonce nackErr t :
  let req := mkDiscoveryRequest (nodeProto t) url names version nonce
               (mkStatus codes_InvalidArgument <$> nackErr) in
  let r := sendAggregatedDiscoveryServiceRequest rt stream names url version
             nonce nackErr t in
  sent r.1 = sent t ++ [mkSendCall stream req (stream_Send rt (sent t) stream req)] ∧
  (r.2 = None ↔ stream_Send rt (sent t) stream req = None).
Proof.
  unfold sendAggregatedDiscoveryServiceRequest.
  destruct nackErr as [e|]; simpl;
    destruct (stream_Send rt (sent t) stream _); simpl; split; try done;
    split; intros; congruence.
Qed.

End Frames.

(** ** ACK / NACK requests *)

Section AckRequests.
Context (rt : Runtime).

(** [processAckRequest] on the live stream, in one equation. *)
Lemma processAckRequest_live ack t :
  processAckRequest rt ack (ack_stream ack) t =
    let t1 := set_nonces (<[ack_url ack := ack_nonce ack]> (nonces t)) t in
    if subscribed t (ack_url ack) then
      (match ack_nackErr ack with
       | None => set_versions (<[ack_url ack := ack_version ack]> (versions t)) t1
       | Some _ => t1
       end,
       (mapToSlice rt (default ∅ (resources t !! ack_url ack)),
        ack_url ack, ack_version ack, ack_nonce ack, true))
    else (t1, ([], "", "", "", false)).
Proof.
  unfold processAckRequest, subscribed.
  rewrite bool_decide_eq_true_2 by done. simpl.
  destruct (resources t !! ack_url ack) as [s|]; simpl; [|done].
  destruct (bool_decide (size s = 0%nat)); simpl; [done|].
  by destruct (ack_nackErr ack).
Qed.

Lemma processAckRequest_stale ack stream t :
  ack_stream ack ≠ stream →
  processAckRequest rt ack stream t = (t, ([], "", "", "", false)).
Proof.
  intros Hne. unfold processAckRequest.
  by rewrite bool_decide_eq_false_2.
Qed.

(** C2.  An ACK/NACK request tagged with a stream other than the sender's
    current one is dropped when the sender takes it off the queue: the
    sender keeps its stream, nothing is sent, and the transport is the one
    before but for the queue; in particular the nonces and the versions are
    the same maps. *)
Theorem stale_ack_is_noop ack stream t rest :
  ack_stream ack ≠ stream →
  adsRequestCh t = ReqAck ack :: rest →
  ∃ t', send_iter rt CaseRequest stream t = Some (Continue, stream, t') ∧
        t' = set_adsRequestCh rest t ∧
        nonces t' = nonces t ∧ versions t' = versions t ∧
        resources t' = resources t ∧ sent t' = sent t.
Proof.
  intros Hne Hq. exists (set_adsRequestCh rest t).
  split; [|done].
  unfold send_iter, send_request. rewrite Hq.
  by rewrite processAckRequest_stale.
Qed.

(** C1 (amended).  An ACK/NACK request processed against the live stream
    always stores its nonce for its type.  Its version is stored exactly
    when it is an ACK and the type has names subscribed; otherwise the
    versions are unchanged.  The request goes on to be sent exactly when
    the type has names subscribed, so after an ACK that is sent the version
    of the type is the ACK's and the nonce of the type is the one it
    carries. *)
Theorem ack_bookkeeping ack stream t t' names url version nonce send :
  ack_stream ack = stream →
  processAckRequest rt ack stream t = (t', (names, url, version, nonce, send)) →
  nonces t' = <[ack_url ack := ack_nonce ack]> (nonces t) ∧
  versions t' =
    (if bool_decide (ack_nackErr ack = None) && subscribed t (ack_url ack)
     then <[ack_url ack := ack_version ack]> (versions t)
     else versions t) ∧
  send = subscribed t (ack_url ack) ∧
  resources t' = resources t ∧
  (send = true → ack_nackErr ack = None →
   versions t' !! ack_url ack = Some (ack_version ack) ∧
   nonces t' !! ack_url ack = Some (ack_nonce ack) ∧
   version = ack_version ack ∧ nonce = ack_nonce ack ∧ url = ack_url ack).
Proof.
  intros <-. rewrite processAckRequest_live. simpl.
  destruct (subscribed t (ack_url ack)) eqn:Hsub.
  - destruct (ack_nackErr ack) as [e|] eqn:He; intros [= <- <- <- <- <- <-];
      simpl; repeat split; try done.
    + by rewrite lookup_insert_eq.
    + by rewrite lookup_insert_eq.
  - intros [= <- <- <- <- <- <-]. simpl. rewrite andb_false_r.
    repeat split; done.
Qed.

(** C5.  An ACK/NACK request for the live stream whose type has no entry
    in the subscriptions, or an empty one, sends nothing: the sender keeps
    its stream, the nonce of the type is stored, and the versions, the
    subscriptions and the calls of [Send] are as before. *)
Theorem ack_without_subscription_not_sent ack stream t rest :
  ack_stream ack = stream →
  (resources t !! ack_url ack = None ∨ resources t !! ack_url ack = Some ∅) →
  adsRequestCh t = ReqAck ack :: rest →
  ∃ t', send_iter rt CaseRequest stream t = Some (Continue, stream, t') ∧
        sent t' = sent t ∧
        nonces t' = <[ack_url ack := ack_nonce ack]> (nonces t) ∧
        versions t' = versions t ∧
        resources t' = resources t.
Proof.
  intros <- Hres Hq.
  assert (subscribed t (ack_url ack) = false) as Hsub.
  { unfold subscribed. destruct Hres as [-> | ->]; [done|].
    by rewrite map_size_empty. }
  eexists. split.
  - unfold send_iter, send_request. rewrite Hq.
    assert (subscribed (set_adsRequestCh rest t) (ack_url ack) = false) as Hsub'
      by exact Hsub.
    rewrite processAckRequest_live. simpl. rewrite Hsub'. simpl. reflexivity.
  - done.
Qed.

(** C10.  A subscribe request with no names, processed while the sender
    has a stream, is handed to [Send] on that stream with an empty name
    list (and the version and nonce stored for its type, no error detail),
    and the entry of its type becomes the empty set. *)
Theorem empty_subscribe_is_sent url s t :
  let req := mkDiscoveryRequest (nodeProto t) url []
               (go_index (versions t) url) (go_index (nonces t) url) None in
  let r := send_request rt (ReqResource (mkResourceRequest [] url)) (Some s) t in
  sent r.2 = sent t ++ [mkSendCall s req (stream_Send rt (sent t) s req)] ∧
  ResourceNames req = [] ∧
  resources r.2 = <[url := ∅]> (resources t) ∧
  resources r.2 !! url = Some ∅ ∧
  versions r.2 = versions t ∧ nonces r.2 = nonces t.
Proof.
  simpl. unfold send_on_stream, sendAggregatedDiscoveryServiceRequest. simpl.
  destruct (stream_Send rt (sent t) s _); simpl; rewrite lookup_insert_eq; done.
Qed.

End AckRequests.

(** ** The receiver and the backoff of the runner *)

Section Receiver.

Lemma recv_iter_frame stream r b t :
  let t' := (recv_iter stream r b t).2 in
  backoff t' = backoff t ∧ versions t' = versions t ∧ nonces t' = nonces t ∧
  resources t' = resources t ∧ sent t' = sent t ∧
  updateHandler t' = updateHandler t ∧ adsStreamCh t' = adsStreamCh t.
Proof.
  cbv zeta. unfold recv_iter. destruct r as [resp|err]; simpl; [|done].
  destruct (updateHandler t _) as [e|]; simpl; [|done].
  destruct (decide _); done.
Qed.

(** Every response read sets [msgReceived] and keeps the loop going. *)
Lemma recv_iter_ok stream resp b t :
  (recv_iter stream (RecvOk resp) b t).1 = (Continue, true).
Proof.
  unfold recv_iter. simpl. destruct (updateHandler t _) as [e|]; simpl; [|done].
  destruct (decide _); done.
Qed.

Lemma recv_loop_backoff stream resps closing b t :
  backoff (recv_loop stream resps closing b t).2 = backoff t.
Proof.
  revert b t. induction resps as [|resp rest IH]; intros b t; [done|].
  cbn [recv_loop].
  pose proof (recv_iter_ok stream resp b t) as Hok.
  pose proof (recv_iter_frame stream (RecvOk resp) b t) as (Hb & _).
  destruct (recv_iter stream (RecvOk resp) b t) as [[ctl b'] t1].
  simpl in Hok, Hb. injection Hok as -> ->. by rewrite IH.
Qed.

(** [recv] returns whether the stream delivered a response. *)
Lemma recv_loop_msgReceived stream resps closing b t :
  (recv_loop stream resps closing b t).1 =
    match resps with [] => b | _ :: _ => true end.
Proof.
  revert b t. induction resps as [|resp rest IH]; intros b t; [done|].
  cbn [recv_loop].
  pose proof (recv_iter_ok stream resp b t) as Hok.
  destruct (recv_iter stream (RecvOk resp) b t) as [[ctl b'] t1].
  simpl in Hok. injection Hok as -> ->. rewrite IH. by destruct rest.
Qed.

(** C3.  On a response the handler rejects with an error that is not of
    the type-unsupported kind, the receiver enqueues a NACK for the type,
    with the version stored for the type (not the received one), the
    received nonce and the error; on a response the handler accepts, an ACK
    with the received version and nonce and no error.  Both requests are
    tagged with the stream, nothing else of the transport changes, and the
    loop goes on with the next read. *)
Theorem recv_enqueues_ack_or_nack stream resp b t rest closing :
  ErrType (verdict t resp) ≠ ErrorTypeResourceTypeUnsupported →
  let ack :=
    match verdict t resp with
    | Some e =>
        mkAckRequest (GetTypeUrl resp) (go_index (versions t) (GetTypeUrl resp))
          (GetNonce resp) (Some e) (Some stream)
    | None =>
        mkAckRequest (GetTypeUrl resp) (GetVersionInfo resp)
          (GetNonce resp) None (Some stream)
    end in
  let t' := set_adsRequestCh (adsRequestCh t ++ [ReqAck ack]) t in
  recv_iter stream (RecvOk resp) b t = (Continue, true, t') ∧
  recv_loop stream (resp :: rest) closing b t =
    recv_loop stream rest closing true t'.
Proof.
  intros Hty. unfold verdict in *.
  assert (recv_iter stream (RecvOk resp) b t =
          (Continue, true,
           set_adsRequestCh
             (adsRequestCh t ++
              [ReqAck
                 match updateHandler t
                         (mkResourceUpdate (GetResources resp) (GetTypeUrl resp)
                            (GetVersionInfo resp)) with
                 | Some e =>
                     mkAckRequest (GetTypeUrl resp)
                       (go_index (versions t) (GetTypeUrl resp))
                       (GetNonce resp) (Some e) (Some stream)
                 | None =>
                     mkAckRequest (GetTypeUrl resp) (GetVersionInfo resp)
                       (GetNonce resp) None (Some stream)
                 end]) t)) as Hiter.
  { unfold recv_iter. simpl. destruct (updateHandler t _) as [e|] eqn:He; simpl.
    - destruct (decide _) as [Heq|_]; [by destruct Hty|done].
    - done. }
  split; [exact Hiter|].
  cbn [recv_loop]. by rewrite Hiter.
Qed.

Lemma publish_ready stream t :
  chan_cap (adsStreamCh t) = 1%nat →
  (length (chan_buf (adsStreamCh t)) ≤ 1)%nat →
  publish stream t = Some (set_adsStreamCh (mkChan 1 [stream]) t).
Proof.
  unfold publish, chan_drain, chan_recv, chan_send.
  destruct (adsStreamCh t) as [cap buf]. simpl. intros -> Hlen.
  destruct buf as [|x [|y buf]]; simpl in *; try lia; reflexivity.
Qed.

(** C6.  After an attempt on which the stream was created: when the
    stream delivered at least one response the timer is reset to zero and
    the attempt counter to zero; when it delivered none, the timer is set to
    [backoff] of the attempt counter and the counter is incremented.  An
    attempt on which the stream could not be created counts as one without
    a response.  From the initial state of the runner, a stream that breaks
    before any response leaves the delay [backoff 0] and the counter 1. *)
Theorem backoff_after_attempt attempt r t :
  chan_cap (adsStreamCh t) = 1%nat →
  (length (chan_buf (adsStreamCh t)) ≤ 1)%nat →
  let received :=
    match attempt with
    | inl (_, life) => negb (bool_decide (responses life = []))
    | inr _ => false
    end in
  ∃ t', adsRunner_iter attempt r t =
          Some ((if received then mkRunner 0 0
                 else mkRunner (int_incr (backoffAttempt r))
                        (backoff t (backoffAttempt r))), t') ∧
        (received = false → 0 ≤ backoffAttempt r < int_max →
         int_incr (backoffAttempt r) = backoffAttempt r + 1) ∧
        (received = false → r = adsRunner_init →
         adsRunner_iter attempt r t = Some (mkRunner 1 (backoff t 0), t')).
Proof.
  intros Hcap Hlen received.
  assert (∀ a, 0 ≤ a < int_max → int_incr a = a + 1) as Hincr.
  { intros a Ha. unfold int_incr, int_wrap, int_max in *.
    rewrite Z.mod_small; lia. }
  unfold adsRunner_iter, resetBackoff.
  destruct attempt as [[stream life]|err]; subst received.
  - rewrite (publish_ready stream t Hcap Hlen). unfold recv.
    pose proof (recv_loop_msgReceived stream (responses life) (closeErr life)
                  false (set_adsStreamCh (mkChan 1 [stream]) t)) as Hmsg.
    pose proof (recv_loop_backoff stream (responses life) (closeErr life)
                  false (set_adsStreamCh (mkChan 1 [stream]) t)) as Hb.
    destruct (recv_loop _ _ _ _ _) as [m t'] eqn:Hrecv. simpl in Hmsg, Hb.
    exists t'. unfold after_attempt. rewrite Hb.
    destruct (responses life) as [|resp rest]; subst m; simpl.
    + split; [done|]. split; [auto|]. by intros _ ->.
    + split; [done|]. split; intros; discriminate.
  - eexists. unfold after_attempt. simpl. split; [reflexivity|].
    split; [auto|]. by intros _ ->.
Qed.

End Receiver.

(** ** Subscriptions and their resending on a new stream *)

Section Subscriptions.
Context (rt : Runtime).

Lemma sliceToMap_acc (ss : list string) (acc : gmap string bool) (x : string) :
  foldl (fun ret s => <[s := true]> ret) acc ss !! x =
    if decide (x ∈ ss) then Some true else acc !! x.
Proof.
  revert acc. induction ss as [|s ss IH]; intros acc; simpl.
  - done.
  - rewrite IH. destruct (decide (x ∈ ss)) as [Hin|Hnin].
    + rewrite decide_True; [done|by right].
    + destruct (decide (x = s)) as [->|Hne].
      * rewrite decide_True; [|by left]. by rewrite lookup_insert_eq.
      * rewrite decide_False; [by rewrite lookup_insert_ne|].
        intros [?|?]%elem_of_cons; done.
Qed.

Lemma sliceToMap_lookup (ss : list string) (x : string) :
  sliceToMap ss !! x = if decide (x ∈ ss) then Some true else None.
Proof. unfold sliceToMap. by rewrite sliceToMap_acc, lookup_empty. Qed.

Lemma sliceToMap_nil : sliceToMap [] = ∅.
Proof. done. Qed.

(** [mapToSlice] lists every key once. *)
Lemma mapToSlice_keys (m : gmap string bool) :
  mapToSlice rt m ≡ₚ (map_to_list m).*1.
Proof. unfold mapToSlice. by rewrite (go_range_perm rt). Qed.

Lemma mapToSlice_sliceToMap (ss : list string) :
  NoDup (mapToSlice rt (sliceToMap ss)) ∧
  ∀ x, x ∈ mapToSlice rt (sliceToMap ss) ↔ x ∈ ss.
Proof.
  split.
  - rewrite mapToSlice_keys. apply NoDup_fst_map_to_list.
  - intros x. rewrite mapToSlice_keys, list_elem_of_fmap. split.
    + intros ([k v] & -> & Hin). apply elem_of_map_to_list in Hin.
      rewrite sliceToMap_lookup in Hin. simpl. by case_decide.
    + intros Hin. exists (x, true). split; [done|].
      apply elem_of_map_to_list. rewrite sliceToMap_lookup.
      by rewrite decide_True.
Qed.

Lemma sendExisting_range_spec stream entries t :
  let r := sendExisting_range rt stream entries t in
  resources r.1 = resources t ∧ versions r.1 = versions t ∧
  nonces r.1 = nonces t ∧ nodeProto r.1 = nodeProto t ∧
  ∃ calls,
    sent r.1 = sent t ++ calls ∧
    sc_req <$> calls = take (length calls) (existing_request rt t <$> entries) ∧
    Forall (fun c => sc_stream c = stream) calls ∧
    (r.2 = true ↔ Forall (fun c => sc_err c = None) calls) ∧
    (r.2 = true → length calls = length entries).
Proof.
  cbv zeta. revert t. induction entries as [|[url names] rest IH]; intros t.
  - simpl. repeat split; try done. exists []. rewrite app_nil_r.
    repeat split; done.
  - cbn [sendExisting_range].
    pose proof (sendADS_frame rt stream (mapToSlice rt names) url
                  (go_index (versions t) url) "" None t)
      as (Hres & Hver & Hnon & _ & _ & _ & Hnode & _).
    pose proof (sendADS_sent rt stream (mapToSlice rt names) url
                  (go_index (versions t) url) "" None t) as [Hsent Herr].
    cbv zeta in Hres, Hver, Hnon, Hnode, Hsent, Herr.
    destruct (sendAggregatedDiscoveryServiceRequest rt stream _ url _ "" None t)
      as [t1 err] eqn:Hcall.
    simpl in Hres, Hver, Hnon, Hnode, Hsent, Herr.
    set (c := mkSendCall stream
                (mkDiscoveryRequest (nodeProto t) url (mapToSlice rt names)
                   (go_index (versions t) url) "" None)
                (stream_Send rt (sent t) stream
                   (mkDiscoveryRequest (nodeProto t) url (mapToSlice rt names)
                      (go_index (versions t) url) "" None))) in *.
    destruct err as [e|].
    + simpl. repeat split; try done. exists [c]. repeat split; try done.
      * by constructor.
      * intros Hall. apply Forall_inv in Hall. simpl in Hall.
        destruct Herr as [_ Herr]. specialize (Herr Hall). done.
    + destruct (IH t1) as (Hres' & Hver' & Hnon' & Hnode' & calls & Hs & Hreq & Hstr & Hok & Hlen).
      repeat split; try congruence.
      exists (c :: calls). repeat split.
      * rewrite Hs, Hsent. by rewrite <- app_assoc.
      * rewrite !fmap_cons, Hreq. cbn [length take]. f_equal. f_equal.
        apply list_fmap_ext. intros i [u n] _. unfold existing_request. simpl.
        by rewrite Hnode, Hver.
      * by constructor.
      * intros Htrue. constructor; [|by apply Hok].
        simpl. by apply Herr.
      * intros Hall. apply Hok. by apply Forall_inv_tail in Hall.
      * intros Htrue. simpl. f_equal. by apply Hlen.
Qed.

(** The calls of [Send] that [sendExisting] makes. *)
Lemma sendExisting_calls stream t :
  let r := sendExisting rt stream t in
  nonces r.1 = ∅ ∧ versions r.1 = versions t ∧ resources r.1 = resources t ∧
  ∃ calls,
    sent r.1 = sent t ++ calls ∧
    sc_req <$> calls =
      take (length calls) (existing_request rt t <$> go_range rt (resources t)) ∧
    Forall (fun c => sc_stream c = stream) calls ∧
    (r.2 = true ↔ Forall (fun c => sc_err c = None) calls) ∧
    (r.2 = true →
     sc_req <$> calls ≡ₚ existing_request rt t <$> map_to_list (resources t)).
Proof.
  cbv zeta. unfold sendExisting.
  pose proof (sendExisting_range_spec stream
                (go_range rt (resources (set_nonces ∅ t))) (set_nonces ∅ t))
    as (Hres & Hver & Hnon & _ & calls & Hs & Hreq & Hstr & Hok & Hlen).
  cbv zeta in *. repeat split; try done.
  exists calls. repeat split; try done.
  - by apply Hok.
  - by apply Hok.
  - intros Htrue. rewrite Hreq, (Hlen Htrue).
    change (resources (set_nonces ∅ t)) with (resources t).
    rewrite <- (length_fmap (existing_request rt (set_nonces ∅ t))), firstn_all.
    by rewrite (go_range_perm rt).
Qed.

(** The calls of the loop of [sendExisting] one by one: each records what
    [Send] returned after the calls before it, and when the loop reports a
    failure the failed call is the last one and the calls before it all
    succeeded. *)
Lemma sendExisting_range_trace stream entries t :
  ∃ calls,
    sent (sendExisting_range rt stream entries t).1 = sent t ++ calls ∧
    (∀ i c, calls !! i = Some c →
            sc_err c = stream_Send rt (sent t ++ take i calls) stream (sc_req c)) ∧
    ((sendExisting_range rt stream entries t).2 = false →
     ∃ pre c e, calls = pre ++ [c] ∧ sc_err c = Some e ∧
                Forall (fun c => sc_err c = None) pre).
Proof.
  revert t. induction entries as [|[url names] rest IH]; intros t.
  - exists []. simpl. rewrite app_nil_r. split; [done|]. split; [|done].
    intros i c Hc. by rewrite lookup_nil in Hc.
  - cbn [sendExisting_range].
    pose proof (sendADS_sent rt stream (mapToSlice rt names) url
                  (go_index (versions t) url) "" None t) as [Hsent Herr].
    cbv zeta in Hsent, Herr.
    destruct (sendAggregatedDiscoveryServiceRequest rt stream _ url _ "" None t)
      as [t1 err] eqn:Hcall.
    simpl in Hsent, Herr.
    set (req := mkDiscoveryRequest (nodeProto t) url (mapToSlice rt names)
                  (go_index (versions t) url) "" None) in *.
    set (c := mkSendCall stream req (stream_Send rt (sent t) stream req)) in *.
    destruct err as [e|].
    + exists [c]. simpl. split; [done|]. split.
      * intros [|i] c' Hc'; [|by destruct i].
        injection Hc' as <-. simpl. by rewrite app_nil_r.
      * intros _. destruct (stream_Send rt (sent t) stream req) as [e'|] eqn:Hs.
        -- exists [], c, e'. split; [done|]. split; [done|constructor].
        -- destruct Herr as [_ Herr]. by specialize (Herr eq_refl).
    + destruct (IH t1) as (calls & Hs & Hidx & Hfail).
      assert (sc_err c = None) as Hc by (simpl; by apply Herr).
      exists (c :: calls). split; [|split].
      * rewrite Hs, Hsent. by rewrite <- app_assoc.
      * intros [|i] c' Hc'.
        -- injection Hc' as <-. simpl. by rewrite app_nil_r.
        -- rewrite (Hidx i c' Hc'), Hsent. simpl. by rewrite <- app_assoc.
      * intros Hf. destruct (Hfail Hf) as (pre & c' & e & -> & He & Hpre).
        exists (c :: pre), c', e. split; [done|]. split; [done|].
        by constructor.
Qed.

(** When [sendExisting] reports a failure, the last call it made failed. *)
Lemma sendExisting_failed_last s t calls :
  sent (sendExisting rt s t).1 = sent t ++ calls →
  (sendExisting rt s t).2 = false →
  ∃ c e, last calls = Some c ∧ sc_err c = Some e.
Proof.
  unfold sendExisting. intros Hs Hf.
  destruct (sendExisting_range_trace s
              (go_range rt (resources (set_nonces ∅ t))) (set_nonces ∅ t))
    as (calls' & Hs' & _ & Hfail).
  change (sent (set_nonces ∅ t)) with (sent t) in Hs'.
  rewrite Hs in Hs'. apply app_inv_head in Hs' as <-.
  destruct (Hfail Hf) as (pre & c & e & -> & He & _).
  exists c, e. split; [apply last_snoc|done].
Qed.


(** What a new stream is sent for one type: every request [sendExisting]
    makes for the type is the one built from its entry, and when
    [sendExisting] succeeds there is such a request. *)
Lemma sendExisting_for_type stream t url names calls :
  resources t !! url = Some names →
  sent (sendExisting rt stream t).1 = sent t ++ calls →
  (∀ c, c ∈ calls → TypeUrl (sc_req c) = url →
        sc_req c = existing_request rt t (url, names)) ∧
  ((sendExisting rt stream t).2 = true →
   ∃ c, c ∈ calls ∧ sc_req c = existing_request rt t (url, names)).
Proof.
  intros Hlook Hsent.
  destruct (sendExisting_calls stream t)
    as (_ & _ & _ & calls' & Hs & Hreq & _ & _ & Hperm).
  cbv zeta in *. rewrite Hs in Hsent. apply app_inv_head in Hsent as ->.
  split.
  - intros c Hc Hurl.
    assert (sc_req c ∈ sc_req <$> calls) as Hin by (by apply list_elem_of_fmap_2).
    rewrite Hreq in Hin. apply subseteq_take in Hin.
    apply list_elem_of_fmap in Hin as ([u n] & Heq & Hin).
    rewrite (go_range_perm rt) in Hin. apply elem_of_map_to_list in Hin.
    rewrite Heq in Hurl. simpl in Hurl. subst u.
    rewrite Hlook in Hin. injection Hin as <-. done.
  - intros Hok. specialize (Hperm Hok).
    assert (existing_request rt t (url, names) ∈ sc_req <$> calls) as Hin.
    { rewrite Hperm. apply list_elem_of_fmap_2.
      by apply elem_of_map_to_list. }
    apply list_elem_of_fmap in Hin as (c & Heq & Hc). eauto.
Qed.

Lemma SendRequest_queue url (l : list (list string)) t :
  adsRequestCh (foldl (fun t names => SendRequest url names t) t l) =
    adsRequestCh t ++ (subscribe_request url <$> l).
Proof.
  revert t. induction l as [|names l IH]; intros t; simpl.
  - by rewrite app_nil_r.
  - rewrite IH. simpl. by rewrite <- app_assoc.
Qed.

Lemma send_request_subscribe url names stream t :
  let r := send_request rt (subscribe_request url names) stream t in
  adsRequestCh r.2 = adsRequestCh t ∧
  resources r.2 = <[url := sliceToMap names]> (resources t).
Proof.
  cbv zeta. unfold send_request, subscribe_request, processResourceRequest,
    send_on_stream. simpl.
  destruct stream as [s|]; [|done].
  unfold sendAggregatedDiscoveryServiceRequest.
  destruct (stream_Send rt _ s _); done.
Qed.

Lemma send_requests_subscribes url (l : list (list string)) stream t :
  adsRequestCh t = subscribe_request url <$> l →
  ∃ stream' t',
    send_requests rt (length l) stream t = Some (stream', t') ∧
    adsRequestCh t' = [] ∧
    resources t' =
      foldl (fun m names => <[url := sliceToMap names]> m) (resources t) l.
Proof.
  revert stream t. induction l as [|names l IH]; intros stream t Hq.
  - exists stream, t. done.
  - cbn [length send_requests]. unfold send_iter. rewrite Hq, fmap_cons.
    pose proof (send_request_subscribe url names stream
                  (set_adsRequestCh (subscribe_request url <$> l) t))
      as [Hq' Hres].
    cbv zeta in Hq', Hres.
    destruct (send_request rt _ stream _) as [stream1 t1]. simpl in Hq', Hres.
    destruct (IH stream1 t1 Hq') as (stream' & t' & Hrun & Hempty & Hfold).
    exists stream', t'. rewrite Hfold, Hres. done.
Qed.

End Subscriptions.

(** ** The slot that hands new streams to the sender *)

Section StreamSlot.
Context (rt : Runtime).

Lemma sendExisting_range_chan stream entries t :
  adsStreamCh (sendExisting_range rt stream entries t).1 = adsStreamCh t.
Proof.
  revert t. induction entries as [|[url names] rest IH]; intros t; [done|].
  cbn [sendExisting_range].
  pose proof (sendADS_frame rt stream (mapToSlice rt names) url
                (go_index (versions t) url) "" None t) as (_ & _ & _ & Hch & _).
  cbv zeta in Hch.
  destruct (sendAggregatedDiscoveryServiceRequest rt stream _ url _ "" None t)
    as [t1 [e|]]; simpl in *; [done|].
  by rewrite IH.
Qed.

Lemma sendExisting_chan stream t :
  adsStreamCh (sendExisting rt stream t).1 = adsStreamCh t.
Proof. unfold sendExisting. by rewrite sendExisting_range_chan. Qed.

Lemma send_on_stream_chan stream names url version nonce nackErr t :
  adsStreamCh (send_on_stream rt stream names url version nonce nackErr t).2 =
    adsStreamCh t.
Proof.
  unfold send_on_stream. destruct stream as [s|]; [|done].
  pose proof (sendADS_frame rt s names url version nonce nackErr t)
    as (_ & _ & _ & Hch & _).
  cbv zeta in Hch.
  destruct (sendAggregatedDiscoveryServiceRequest rt s names url version nonce
              nackErr t) as [t1 [e|]]; done.
Qed.

Lemma processAckRequest_chan ack stream t :
  adsStreamCh (processAckRequest rt ack stream t).1 = adsStreamCh t.
Proof.
  unfold processAckRequest.
  destruct (negb (bool_decide (ack_stream ack = stream))); [done|].
  simpl. destruct (resources t !! ack_url ack) as [s|]; simpl; [|done].
  destruct (bool_decide (size s = 0%nat)); simpl; [done|].
  by destruct (ack_nackErr ack).
Qed.

Lemma send_request_chan u stream t :
  adsStreamCh (send_request rt u stream t).2 = adsStreamCh t.
Proof.
  destruct u as [r|ack]; unfold send_request.
  - unfold processResourceRequest. by rewrite send_on_stream_chan.
  - pose proof (processAckRequest_chan ack stream t) as Hch.
    destruct (processAckRequest rt ack stream t)
      as [t1 [[[[names url] version] nonce] send]].
    simpl in Hch. destruct send; simpl; [|done].
    by rewrite send_on_stream_chan.
Qed.

Lemma slot_inv_init opts t :
  New rt opts = inl t → slot_inv (sys_init t).
Proof.
  unfold New. intros Hnew.
  destruct (decide _); [done|].
  destruct (Creds _); [|done]. destruct (UpdateHandler _); [|done].
  destruct (StreamErrorHandler _); [|done]. destruct (grpcDial _ _ _); [|done].
  injection Hnew as <-. unfold slot_inv. simpl. split; [done|]. split; [by left|done].
Qed.

Lemma slot_inv_step e y y' :
  slot_inv y → sys_step rt e y = Some y' → slot_inv y'.
Proof.
  unfold slot_inv. intros (Hcap & Hbuf & Hpush) Hstep.
  destruct e as [url names| |c|r| | |r|]; simpl in Hstep.
  - injection Hstep as <-. done.
  - injection Hstep as <-. done.
  - destruct (sender_exited y); [done|].
    destruct (bool_decide (c = CaseDone) && negb (ctx_done y)); [done|].
    destruct c; simpl in Hstep.
    + injection Hstep as <-. done.
    + unfold chan_recv in Hstep.
      destruct (adsStreamCh (sys_t y)) as [cap buf] eqn:Hch. simpl in *.
      destruct buf as [|s buf]; [done|].
      pose proof (sendExisting_chan s
                    (set_adsStreamCh (mkChan cap buf) (sys_t y))) as Hch'.
      destruct (sendExisting rt s _) as [t1 ok]. simpl in Hch'.
      injection Hstep as <-. simpl. rewrite Hch'. simpl.
      destruct Hbuf as [?|(s' & Heq & _)]; [done|].
      injection Heq as -> ->. split; [done|]. split; [by left|done].
    + destruct (adsRequestCh (sys_t y)) as [|u rest]; [done|].
      pose proof (send_request_chan u (sender_stream y)
                    (set_adsRequestCh rest (sys_t y))) as Hch'.
      destruct (send_request rt u _ _) as [stream1 t1]. simpl in Hch'.
      injection Hstep as <-. simpl. rewrite Hch'. done.
  - destruct (runner_pc y); try done.
    destruct r as [s|err]; injection Hstep as <-; simpl.
    + split; [done|]. split; done.
    + split; [done|]. split; done.
  - destruct (runner_pc y) as [|s| | |]; try done.
    injection Hstep as <-. simpl.
    unfold chan_drain, chan_recv.
    destruct (adsStreamCh (sys_t y)) as [cap buf]. simpl in *.
    destruct Hbuf as [->|(s' & -> & _)]; simpl;
      (split; [done|]; split; [by left|done]).
  - destruct (runner_pc y) as [| |s| |] eqn:Hpc; try done.
    unfold chan_send in Hstep.
    destruct (adsStreamCh (sys_t y)) as [cap buf]. simpl in *.
    pose proof (Hpush s eq_refl) as ->. subst cap. simpl in Hstep.
    injection Hstep as <-. simpl.
    split; [done|]. split; [|done]. right. by exists s.
  - destruct (runner_pc y) as [| | |s b|]; try done.
    pose proof (recv_iter_frame s r b (sys_t y)) as (_ & _ & _ & _ & _ & _ & Hch).
    cbv zeta in Hch.
    destruct (recv_iter s r b (sys_t y)) as [[ctl b'] t1]. simpl in Hch.
    destruct ctl; injection Hstep as <-; simpl; rewrite Hch; done.
  - destruct (runner_pc y); try done.
    destruct (ctx_done y); [|done].
    injection Hstep as <-. done.
Qed.

Lemma slot_inv_run es y y' :
  slot_inv y → sys_run rt es y = Some y' → slot_inv y'.
Proof.
  revert y. induction es as [|e es IH]; intros y Hinv Hrun; simpl in Hrun.
  - by injection Hrun as <-.
  - destruct (sys_step rt e y) as [y1|] eqn:Hstep; [|done].
    eauto using slot_inv_step.
Qed.

(** C8.  In every state the program reaches after construction, the slot
    holds at most one handle, and a handle that waits in it is the one that
    was pushed last.  Whatever waits in the slot when the runner has a new
    stream, emptying the slot and pushing never blocks and leaves the new
    handle alone in the slot.  What the sender takes out of the slot is the
    handle pushed last, and it leaves the slot empty. *)
Theorem stream_slot_holds_newest opts t0 es y :
  New rt opts = inl t0 →
  sys_run rt es (sys_init t0) = Some y →
  let ch := adsStreamCh (sys_t y) in
  chan_cap ch = 1%nat ∧
  (length (chan_buf ch) ≤ 1)%nat ∧
  (∀ s, s ∈ chan_buf ch → head (published y) = Some s) ∧
  (∀ s, runner_pc y = AtDrain s →
     ∃ y1 y2, sys_step rt EvDrain y = Some y1 ∧ sys_step rt EvPush y1 = Some y2 ∧
              chan_buf (adsStreamCh (sys_t y2)) = [s] ∧
              published y2 = s :: published y) ∧
  (∀ s, runner_pc y = AtPush s →
     ∃ y2, sys_step rt EvPush y = Some y2 ∧
           chan_buf (adsStreamCh (sys_t y2)) = [s]) ∧
  (∀ y', sys_step rt (EvSender CaseStream) y = Some y' →
     ∃ s, head (published y) = Some s ∧ chan_buf ch = [s] ∧
          chan_buf (adsStreamCh (sys_t y')) = [] ∧
          (sender_stream y' = Some s ∨ sender_stream y' = None)).
Proof.
  intros Hnew Hrun.
  pose proof (slot_inv_run es _ y (slot_inv_init opts t0 Hnew) Hrun)
    as (Hcap & Hbuf & Hpush).
  cbv zeta. split; [done|]. split; [|split; [|split; [|split]]].
  - destruct Hbuf as [->|(s & -> & _)]; simpl; lia.
  - intros s Hin. destruct Hbuf as [Hnil|(s' & Heq & Hhd)].
    + rewrite Hnil in Hin. by apply elem_of_nil in Hin.
    + rewrite Heq in Hin. apply list_elem_of_singleton in Hin. by subst.
  - intros s Hpc. simpl. rewrite Hpc.
    eexists. eexists. split; [reflexivity|]. simpl.
    unfold chan_drain, chan_recv, chan_send.
    destruct (adsStreamCh (sys_t y)) as [cap buf]. simpl in *. subst cap.
    destruct Hbuf as [->|(s' & -> & _)]; simpl; done.
  - intros s Hpc. simpl. rewrite Hpc. unfold chan_send.
    rewrite (Hpush s Hpc), Hcap. simpl. eexists. split; [reflexivity|].
    done.
  - intros y' Hstep. simpl in Hstep.
    destruct (sender_exited y); [done|]. simpl in Hstep.
    unfold chan_recv in Hstep.
    destruct (adsStreamCh (sys_t y)) as [cap buf] eqn:Hch. simpl in *.
    destruct Hbuf as [->|(s & -> & Hhd)]; [done|].
    exists s.
    pose proof (sendExisting_chan s (set_adsStreamCh (mkChan cap []) (sys_t y)))
      as Hch'.
    destruct (sendExisting rt s _) as [t1 ok]. simpl in Hch'.
    injection Hstep as <-. simpl. rewrite Hch'. simpl.
    repeat split; try done. destruct ok; auto.
Qed.

End StreamSlot.

(** ** The runner's loop body and its steps in the transition system

    The steps of the runner on one attempt, taken without another
    goroutine in between, compute what [adsRunner_iter] computes. *)

Section RunnerSteps.
Context (rt : Runtime).


Lemma recv_steps_agree s resps e b t cd ss se r pub :
  sys_run rt (((fun resp => EvRecv (RecvOk resp)) <$> resps) ++ [EvRecv (RecvErr e)])
    (mkSys t cd ss se (AtRecv s b) r pub) =
  Some (mkSys (recv_loop s resps e b t).2 cd ss se AtTimer
          (after_attempt (recv_loop s resps e b t).1 r (recv_loop s resps e b t).2)
          pub).
Proof.
  revert b t. induction resps as [|resp rest IH]; intros b t; [done|].
  rewrite fmap_cons. cbn [app sys_run sys_step runner_pc sys_t recv_loop].
  pose proof (recv_iter_ok s resp b t) as Hok.
  destruct (recv_iter s (RecvOk resp) b t) as [[ctl b1] t1].
  simpl in Hok. injection Hok as -> ->. simpl. apply IH.
Qed.

Lemma runner_steps_agree s life y :
  runner_pc y = AtTimer →
  chan_cap (adsStreamCh (sys_t y)) = 1%nat →
  (length (chan_buf (adsStreamCh (sys_t y))) ≤ 1)%nat →
  sys_run rt ([EvNewStream (inl s); EvDrain; EvPush] ++
              ((fun resp => EvRecv (RecvOk resp)) <$> responses life) ++
              [EvRecv (RecvErr (closeErr life))]) y =
  (fun '(r, t) => mkSys t (ctx_done y) (sender_stream y) (sender_exited y)
                    AtTimer r (s :: published y))
    <$> adsRunner_iter (inl (s, life)) (runner y) (sys_t y).
Proof.
  intros Hpc Hcap Hlen. destruct y as [t cd ss se pc r pub]. simpl in *. subst pc.
  unfold adsRunner_iter, resetBackoff. rewrite (publish_ready s t Hcap Hlen).
  cbn [sys_run sys_step runner_pc sys_t app].
  unfold chan_drain, chan_recv, chan_send.
  destruct (adsStreamCh t) as [cap buf] eqn:Hch. simpl in *. subst cap.
  assert (∀ c : chan adsStream,
            set_adsStreamCh (mkChan 1 [s]) (set_adsStreamCh c t) =
            set_adsStreamCh (mkChan 1 [s]) t) as Hset by done.
  destruct buf as [|x [|x' buf]]; simpl in *; try lia;
    rewrite Hset, recv_steps_agree; unfold recv;
    by destruct (recv_loop _ _ _ _ _).
Qed.

End RunnerSteps.

(** ** Construction *)

Section Construction.
Context (rt : Runtime).

(** C9.  [New] returns an error exactly when the server URI is empty, or
    the credentials, the update handler or the stream error handler are
    missing, or the dial fails; each of the four missing options makes it
    fail, and with the four present and a dial that succeeds it returns a
    transport. *)
Theorem New_fails_iff_option_missing opts :
  let uri := ServerURI (ServerCfg opts) in
  let dial_fails :=
    ∃ creds err, Creds (ServerCfg opts) = Some creds ∧
                 grpcDial rt uri [creds; "WithKeepaliveParams"] = inr err in
  ((∃ e, New rt opts = inr e) ↔
   uri = "" ∨ Creds (ServerCfg opts) = None ∨ UpdateHandler opts = None ∨
   StreamErrorHandler opts = None ∨ dial_fails) ∧
  ((∃ t, New rt opts = inl t) ↔
   uri ≠ "" ∧ is_Some (Creds (ServerCfg opts)) ∧ is_Some (UpdateHandler opts) ∧
   is_Some (StreamErrorHandler opts) ∧ ¬ dial_fails).
Proof.
  cbv zeta. unfold New.
  destruct (decide (ServerURI (ServerCfg opts) = "")) as [Huri|Huri].
  { split; split; try (intros; eauto; fail).
    - intros [t Ht]. done.
    - intros (? & _). done. }
  destruct (Creds (ServerCfg opts)) as [creds|].
  2:{ split; split; try (intros; eauto 10; fail).
      - intros [t Ht]. done.
      - intros (_ & [? ?] & _). done. }
  destruct (UpdateHandler opts) as [h|].
  2:{ split; split; try (intros; eauto 10; fail).
      - intros [t Ht]. done.
      - intros (_ & _ & [? ?] & _). done. }
  destruct (StreamErrorHandler opts) as [eh|].
  2:{ split; split; try (intros; eauto 10; fail).
      - intros [t Ht]. done.
      - intros (_ & _ & _ & [? ?] & _). done. }
  destruct (grpcDial rt _ _) as [conn|err] eqn:Hdial.
  - split; split.
    + intros [e He]. done.
    + intros [?|[?|[?|[?|(c & e & Hc & Hd)]]]]; try done.
      injection Hc as <-. rewrite Hdial in Hd. done.
    + intros _. repeat split; eauto.
      intros (c & e & Hc & Hd). injection Hc as <-. rewrite Hdial in Hd. done.
    + intros _. eauto.
  - split; split.
    + intros _. do 4 right. eauto.
    + intros _. eauto.
    + intros [t Ht]. done.
    + intros (_ & _ & _ & _ & Hnd). destruct Hnd. eauto.
Qed.

End Construction.

(** * Further properties of the code *)

(** ** Names as slices and as sets *)

Section Slices.
Context (rt : Runtime).

Lemma mapToSlice_elem (m : gmap string bool) (x : string) :
  x ∈ mapToSlice rt m ↔ is_Some (m !! x).
Proof.
  unfold mapToSlice. rewrite (go_range_perm rt), list_elem_of_fmap. split.
  - intros ([k v] & -> & Hin). apply elem_of_map_to_list in Hin. by exists v.
  - intros [v Hv]. exists (x, v). split; [done|]. by apply elem_of_map_to_list.
Qed.

Lemma mapToSlice_NoDup (m : gmap string bool) : NoDup (mapToSlice rt m).
Proof.
  unfold mapToSlice. rewrite (go_range_perm rt). apply NoDup_fst_map_to_list.
Qed.

Lemma mapToSlice_length (m : gmap string bool) :
  length (mapToSlice rt m) = size m.
Proof.
  unfold mapToSlice. rewrite length_fmap, (go_range_perm rt).
  apply length_map_to_list.
Qed.

Lemma mapToSlice_nil (m : gmap string bool) :
  mapToSlice rt m = [] ↔ m = ∅.
Proof.
  rewrite <- map_size_empty_iff, <- mapToSlice_length.
  split; [by intros ->|apply nil_length_inv].
Qed.

Lemma sliceToMap_elem (ss : list string) (x : string) :
  is_Some (sliceToMap ss !! x) ↔ x ∈ ss.
Proof.
  rewrite sliceToMap_lookup. case_decide; split; try done.
Qed.

Lemma sliceToMap_values (ss : list string) :
  map_Forall (fun _ v => v = true) (sliceToMap ss).
Proof.
  intros x v. rewrite sliceToMap_lookup. case_decide; congruence.
Qed.

(** X1.  Turning a list of names into a set and the set back into a list
    gives the names of the list, each once: no duplicates, the same
    members, never more names than the list had, empty exactly when the
    list is empty, and a permutation of the list when it had no
    duplicates. *)
Theorem sliceToMap_then_mapToSlice (ss : list string) :
  let l := mapToSlice rt (sliceToMap ss) in
  NoDup l ∧ (∀ x, x ∈ l ↔ x ∈ ss) ∧ (length l ≤ length ss)%nat ∧
  (l = [] ↔ ss = []) ∧ (NoDup ss → l ≡ₚ ss).
Proof.
  cbv zeta.
  assert (∀ x, x ∈ mapToSlice rt (sliceToMap ss) ↔ x ∈ ss) as Hel.
  { intros x. by rewrite mapToSlice_elem, sliceToMap_elem. }
  pose proof (mapToSlice_NoDup (sliceToMap ss)) as Hnd.
  split; [done|]. split; [done|]. split; [|split].
  - apply submseteq_length, NoDup_submseteq; [done|]. intros x. apply Hel.
  - split.
    + intros Hnil. destruct ss as [|s ss]; [done|].
      assert (s ∈ mapToSlice rt (sliceToMap (s :: ss))) as Hin
        by (apply Hel; left).
      rewrite Hnil in Hin. by apply elem_of_nil in Hin.
    + intros ->. by apply mapToSlice_nil.
  - intros Hnd'. by apply NoDup_Permutation.
Qed.

(** X2.  The other way round: a set of names (a map whose values are all
    [true], as [sliceToMap] builds them) is the set of the names of its
    slice. *)
Theorem mapToSlice_then_sliceToMap (m : gmap string bool) :
  map_Forall (fun _ v => v = true) m →
  sliceToMap (mapToSlice rt m) = m.
Proof.
  intros Htrue. apply map_eq. intros x. rewrite sliceToMap_lookup.
  case_decide as Hin.
  - apply mapToSlice_elem in Hin as [v Hv].
    rewrite Hv. f_equal. symmetry. by apply (Htrue x).
  - destruct (m !! x) as [v|] eqn:Hv; [|done].
    destruct Hin. apply mapToSlice_elem. by exists v.
Qed.

End Slices.

(** ** What the sender puts on the wire *)

Section SenderWire.
Context (rt : Runtime).

Lemma send_on_stream_some s names url version nonce nackErr t :
  let req := wire_request t url names version nonce nackErr in
  let res := stream_Send rt (sent t) s req in
  send_on_stream rt (Some s) names url version nonce nackErr t =
    (match res with None => Some s | Some _ => None end,
     set_sent (sent t ++ [mkSendCall s req res]) t).
Proof.
  cbv zeta. unfold send_on_stream, sendAggregatedDiscoveryServiceRequest, wire_request.
  destruct nackErr as [e|]; simpl; by destruct (stream_Send rt (sent t) s _).
Qed.

Lemma subscribed_true t url names :
  resources t !! url = Some names → names ≠ ∅ → subscribed t url = true.
Proof.
  intros Hlook Hne. unfold subscribed. rewrite Hlook.
  rewrite bool_decide_eq_false_2; [done|]. by rewrite map_size_empty_iff.
Qed.

(** The sender taking an ACK/NACK request for its stream and a type with
    names subscribed, with the transport it leaves. *)
Lemma send_iter_ack_live ack s t rest names :
  ack_stream ack = Some s →
  adsRequestCh t = ReqAck ack :: rest →
  resources t !! ack_url ack = Some names →
  names ≠ ∅ →
  let req := wire_request t (ack_url ack) (mapToSlice rt names)
               (ack_version ack) (ack_nonce ack) (ack_nackErr ack) in
  let res := stream_Send rt (sent t) s req in
  let t1 := set_nonces (<[ack_url ack := ack_nonce ack]> (nonces t))
              (set_adsRequestCh rest t) in
  let t2 := match ack_nackErr ack with
            | None => set_versions (<[ack_url ack := ack_version ack]> (versions t)) t1
            | Some _ => t1
            end in
  send_iter rt CaseRequest (Some s) t =
    Some (Continue, match res with None => Some s | Some _ => None end,
          set_sent (sent t ++ [mkSendCall s req res]) t2).
Proof.
  intros Hs Hq Hlook Hne. cbv zeta.
  assert (subscribed (set_adsRequestCh rest t) (ack_url ack) = true) as Hsub
    by (by apply (subscribed_true _ _ names)).
  unfold send_iter, send_request. rewrite Hq, <- Hs.
  rewrite processAckRequest_live. cbv zeta. rewrite Hsub.
  change (resources (set_adsRequestCh rest t)) with (resources t).
  rewrite Hlook, Hs. simpl default.
  destruct (ack_nackErr ack) as [e|] eqn:He;
    rewrite send_on_stream_some; reflexivity.
Qed.

(** The sender taking a subscribe request while it has a stream. *)
Lemma send_iter_subscribe_live r s t rest :
  adsRequestCh t = ReqResource r :: rest →
  let req := wire_request t (rr_url r) (rr_resources r)
               (default "" (versions t !! rr_url r))
               (default "" (nonces t !! rr_url r)) None in
  let res := stream_Send rt (sent t) s req in
  send_iter rt CaseRequest (Some s) t =
    Some (Continue, match res with None => Some s | Some _ => None end,
          set_sent (sent t ++ [mkSendCall s req res])
            (set_resources (<[rr_url r := sliceToMap (rr_resources r)]> (resources t))
               (set_adsRequestCh rest t))).
Proof.
  intros Hq. cbv zeta. unfold send_iter, send_request, processResourceRequest.
  by rewrite Hq, send_on_stream_some.
Qed.

(** X3.  An ACK/NACK request for the sender's stream and a type with names
    subscribed makes one call of [Send] on that stream: the message names
    the type, the names subscribed now (each once, at least one), the
    version and the nonce of the request, and an error detail with code
    [InvalidArgument] and the error exactly when the request is a NACK.
    The sender keeps its stream when [Send] succeeds and gives it up when
    [Send] fails. *)
Theorem ack_request_on_wire ack s t rest names :
  ack_stream ack = Some s →
  adsRequestCh t = ReqAck ack :: rest →
  resources t !! ack_url ack = Some names →
  names ≠ ∅ →
  let req := wire_request t (ack_url ack) (mapToSlice rt names)
               (ack_version ack) (ack_nonce ack) (ack_nackErr ack) in
  let res := stream_Send rt (sent t) s req in
  ∃ t', send_iter rt CaseRequest (Some s) t =
          Some (Continue, match res with None => Some s | Some _ => None end, t') ∧
        sent t' = sent t ++ [mkSendCall s req res] ∧
        adsRequestCh t' = rest ∧
        ResourceNames req ≠ [] ∧ NoDup (ResourceNames req) ∧
        (∀ x, x ∈ ResourceNames req ↔ is_Some (names !! x)) ∧
        ErrorDetail req = mkStatus codes_InvalidArgument <$> ack_nackErr ack.
Proof.
  intros Hs Hq Hlook Hne. cbv zeta.
  rewrite (send_iter_ack_live ack s t rest names Hs Hq Hlook Hne). cbv zeta.
  assert (mapToSlice rt names ≠ []) as Hnn.
  { intros Hnil. by apply mapToSlice_nil in Hnil. }
  eexists. split; [reflexivity|].
  destruct (ack_nackErr ack) as [e|] eqn:He;
    simpl; repeat split; try done;
    try apply mapToSlice_NoDup; apply mapToSlice_elem.
Qed.

(** X4.  A subscribe request taken by a sender that has a stream makes one
    call of [Send] on it: the message carries the names as the caller gave
    them, the version and nonce stored for the type (empty strings when
    there are none) and no error detail.  The entry of the type becomes the
    set of these names, the entries of the other types stay, and so do the
    versions and the nonces.  The sender keeps its stream exactly when
    [Send] succeeds. *)
Theorem subscribe_request_on_wire r s t rest :
  adsRequestCh t = ReqResource r :: rest →
  let req := wire_request t (rr_url r) (rr_resources r)
               (default "" (versions t !! rr_url r))
               (default "" (nonces t !! rr_url r)) None in
  let res := stream_Send rt (sent t) s req in
  ∃ t', send_iter rt CaseRequest (Some s) t =
          Some (Continue, match res with None => Some s | Some _ => None end, t') ∧
        sent t' = sent t ++ [mkSendCall s req res] ∧
        adsRequestCh t' = rest ∧
        resources t' !! rr_url r = Some (sliceToMap (rr_resources r)) ∧
        (∀ url, url ≠ rr_url r → resources t' !! url = resources t !! url) ∧
        versions t' = versions t ∧ nonces t' = nonces t.
Proof.
  intros Hq req res. rewrite (send_iter_subscribe_live r s t rest Hq).
  eexists. split; [reflexivity|].
  simpl. rewrite lookup_insert_eq. repeat split.
  intros url Hne. by rewrite lookup_insert_ne.
Qed.

(** Requests taken by a sender without a stream. *)
Lemma send_request_no_stream u t :
  (∀ a, u = ReqAck a → ack_stream a ≠ None) →
  let r := send_request rt u None t in
  r.1 = None ∧ sent r.2 = sent t ∧ versions r.2 = versions t ∧
  nonces r.2 = nonces t ∧ adsRequestCh r.2 = adsRequestCh t ∧
  resources r.2 =
    match u with
    | ReqResource q => <[rr_url q := sliceToMap (rr_resources q)]> (resources t)
    | ReqAck _ => resources t
    end.
Proof.
  intros Htag. cbv zeta. destruct u as [q|a]; unfold send_request.
  - done.
  - rewrite processAckRequest_stale; [done|]. by apply Htag.
Qed.

(** X5.  A sender without a stream (none was handed over yet, or a [Send]
    failed) takes every request off the queue without a call of [Send].
    The ACK/NACK requests, all made on some stream, leave the versions and
    the nonces as they are; the subscribe requests are still recorded in
    the subscriptions. *)
Theorem sender_without_stream_sends_nothing (us : list request) t :
  adsRequestCh t = us →
  Forall (fun u => ∀ a, u = ReqAck a → ack_stream a ≠ None) us →
  ∃ t', send_requests rt (length us) None t = Some (None, t') ∧
        adsRequestCh t' = [] ∧ sent t' = sent t ∧
        versions t' = versions t ∧ nonces t' = nonces t ∧
        resources t' =
          foldl (fun m u =>
                   match u with
                   | ReqResource q => <[rr_url q := sliceToMap (rr_resources q)]> m
                   | ReqAck _ => m
                   end) (resources t) us.
Proof.
  revert t. induction us as [|u us IH]; intros t Hq Htag.
  - exists t. done.
  - apply Forall_cons in Htag as [Hu Hus].
    cbn [length send_requests]. unfold send_iter. rewrite Hq.
    pose proof (send_request_no_stream u (set_adsRequestCh us t) Hu)
      as (Hst & Hsent & Hv & Hn & Hq' & Hres).
    cbv zeta in *.
    destruct (send_request rt u None (set_adsRequestCh us t)) as [st1 t1].
    simpl in Hst, Hsent, Hv, Hn, Hq', Hres. subst st1.
    destruct (IH t1 Hq' Hus) as (t' & Hrun & Hq'' & Hsent' & Hv' & Hn' & Hres').
    exists t'. split; [exact Hrun|].
    rewrite Hsent', Hsent, Hv', Hv, Hn', Hn, Hres', Hres. done.
Qed.

(** X6.  A subscription made while the sender has no stream is sent on the
    next one: nothing is sent when the request is taken, and when
    [sendExisting] then succeeds on a stream it has made a request for the
    type with the names of the subscription, each once. *)
Theorem subscription_waits_for_stream r t rest :
  adsRequestCh t = ReqResource r :: rest →
  ∃ t', send_iter rt CaseRequest None t = Some (Continue, None, t') ∧
        sent t' = sent t ∧
        ∀ s calls,
          sent (sendExisting rt s t').1 = sent t' ++ calls →
          (sendExisting rt s t').2 = true →
          ∃ c, c ∈ calls ∧ sc_stream c = s ∧
               TypeUrl (sc_req c) = rr_url r ∧
               NoDup (ResourceNames (sc_req c)) ∧
               (∀ x, x ∈ ResourceNames (sc_req c) ↔ x ∈ rr_resources r) ∧
               VersionInfo (sc_req c) = default "" (versions t !! rr_url r) ∧
               ResponseNonce (sc_req c) = "".
Proof.
  intros Hq. unfold send_iter. rewrite Hq.
  pose proof (send_request_no_stream (ReqResource r) (set_adsRequestCh rest t))
    as Hno.
  cbv zeta in Hno.
  destruct Hno as (Hst & Hsent & Hv & _ & _ & Hres); [done|].
  destruct (send_request rt (ReqResource r) None (set_adsRequestCh rest t))
    as [st1 t1].
  simpl in Hst, Hsent, Hv, Hres. subst st1.
  exists t1. split; [done|]. split; [done|].
  intros s calls Hcalls Hok.
  assert (resources t1 !! rr_url r = Some (sliceToMap (rr_resources r))) as Hlook
    by (by rewrite Hres, lookup_insert_eq).
  destruct (sendExisting_for_type rt s t1 _ _ calls Hlook Hcalls) as [_ Hex].
  destruct (Hex Hok) as (c & Hc & Heq).
  destruct (sendExisting_calls rt s t1) as (_ & _ & _ & calls' & Hs' & _ & Hstr & _).
  cbv zeta in Hs'. rewrite Hs' in Hcalls. apply app_inv_head in Hcalls as <-.
  exists c. split; [done|]. split.
  { by apply (proj1 (Forall_forall _ _) Hstr). }
  rewrite Heq. simpl. split; [done|]. split; [apply mapToSlice_NoDup|].
  split; [|by rewrite Hv].
  intros x. by rewrite mapToSlice_elem, sliceToMap_elem.
Qed.

(** X7.  A subscribe request for a type, taken right after an ACK/NACK
    request for the same type that was sent, is sent with the nonce of
    that request, and with its version when it was an ACK, with the
    version stored before when it was a NACK. *)
Theorem subscribe_after_ack ack r s t rest names :
  ack_stream ack = Some s →
  adsRequestCh t = ReqAck ack :: ReqResource r :: rest →
  rr_url r = ack_url ack →
  resources t !! ack_url ack = Some names →
  names ≠ ∅ →
  stream_Send rt (sent t) s
    (wire_request t (ack_url ack) (mapToSlice rt names) (ack_version ack)
       (ack_nonce ack) (ack_nackErr ack)) = None →
  ∃ stream' t' c1 c2,
    send_requests rt 2 (Some s) t = Some (stream', t') ∧
    sent t' = sent t ++ [c1; c2] ∧
    sc_stream c2 = s ∧
    TypeUrl (sc_req c2) = ack_url ack ∧
    ResourceNames (sc_req c2) = rr_resources r ∧
    ResponseNonce (sc_req c2) = ack_nonce ack ∧
    VersionInfo (sc_req c2) =
      match ack_nackErr ack with
      | None => ack_version ack
      | Some _ => default "" (versions t !! ack_url ack)
      end.
Proof.
  intros Hs Hq Hurl Hlook Hne Hsend.
  cbn [send_requests].
  rewrite (send_iter_ack_live ack s t _ names Hs Hq Hlook Hne). cbv zeta.
  rewrite Hsend.
  match goal with
  | |- context [send_iter rt CaseRequest (Some s) ?t1] =>
      rewrite (send_iter_subscribe_live r s t1 rest)
  end.
  2:{ by destruct (ack_nackErr ack). }
  cbv zeta. rewrite Hurl.
  destruct (ack_nackErr ack) as [e|];
    (do 4 eexists; split; [reflexivity|]);
    simpl; rewrite <- app_assoc; simpl;
    rewrite !lookup_insert_eq; repeat split; done.
Qed.

Lemma sendExisting_range_queue stream entries t :
  adsRequestCh (sendExisting_range rt stream entries t).1 = adsRequestCh t.
Proof.
  revert t. induction entries as [|[url names] tl IH]; intros t; [done|].
  cbn [sendExisting_range].
  pose proof (sendADS_frame rt stream (mapToSlice rt names) url
                (go_index (versions t) url) "" None t)
    as (_ & _ & _ & _ & Hq & _).
  cbv zeta in Hq.
  destruct (sendAggregatedDiscoveryServiceRequest rt stream _ url _ "" None t)
    as [t1 [e|]]; simpl in *; [done|].
  by rewrite IH.
Qed.

Lemma sendExisting_sent_queue stream t :
  adsRequestCh (sendExisting rt stream t).1 = adsRequestCh t.
Proof. unfold sendExisting. by rewrite sendExisting_range_queue. Qed.

(** X8.  The sender takes a new stream out of the slot and then a
    subscribe request.  When every [Send] of [sendExisting] on the new
    stream succeeded, the request is sent on the new stream with an empty
    nonce and with the version stored for the type before the stream was
    replaced.  When one of them failed, the sender is without a stream and
    nothing is sent for the request. *)
Theorem subscribe_after_new_stream r s old t rest :
  chan_buf (adsStreamCh t) = [s] →
  adsRequestCh t = ReqResource r :: rest →
  ∃ stream1 t1 calls stream2 t2,
    send_iter rt CaseStream old t = Some (Continue, stream1, t1) ∧
    sent t1 = sent t ++ calls ∧
    send_iter rt CaseRequest stream1 t1 = Some (Continue, stream2, t2) ∧
    (Forall (fun c => sc_err c = None) calls →
     stream1 = Some s ∧
     ∃ c, sent t2 = sent t1 ++ [c] ∧
          sc_stream c = s ∧ TypeUrl (sc_req c) = rr_url r ∧
          ResourceNames (sc_req c) = rr_resources r ∧
          ResponseNonce (sc_req c) = "" ∧
          VersionInfo (sc_req c) = default "" (versions t !! rr_url r)) ∧
    (¬ Forall (fun c => sc_err c = None) calls →
     stream1 = None ∧ stream2 = None ∧ sent t2 = sent t1).
Proof.
  intros Hbuf Hq. unfold send_iter at 1. unfold chan_recv. rewrite Hbuf.
  set (t0 := set_adsStreamCh (mkChan (chan_cap (adsStreamCh t)) []) t).
  destruct (sendExisting_calls rt s t0) as (Hn & Hv & _ & calls & Hs & _ & _ & Hok & _).
  pose proof (sendExisting_sent_queue s t0) as Hq1.
  cbv zeta in Hn, Hv, Hs, Hok.
  destruct (sendExisting rt s t0) as [t1 ok]. simpl in Hn, Hv, Hs, Hok, Hq1.
  change (adsRequestCh t0) with (adsRequestCh t) in Hq1. rewrite Hq in Hq1.
  destruct ok.
  - exists (Some s), t1, calls.
    rewrite (send_iter_subscribe_live r s t1 rest Hq1). cbv zeta.
    do 2 eexists. split; [reflexivity|]. split; [exact Hs|].
    split; [reflexivity|]. split.
    + intros _. split; [done|]. eexists. split; [reflexivity|]. simpl.
      rewrite Hn, Hv, lookup_empty. repeat split; done.
    + intros Hnot. destruct Hnot. by apply Hok.
  - pose proof (send_request_no_stream (ReqResource r) (set_adsRequestCh rest t1))
      as Hno.
    cbv zeta in Hno. destruct Hno as (Hst & Hsent & _); [done|].
    exists None, t1, calls. unfold send_iter. rewrite Hq1.
    destruct (send_request rt (ReqResource r) None (set_adsRequestCh rest t1))
      as [st2 t2].
    simpl in Hst, Hsent. subst st2.
    exists None, t2.
    split; [done|]. split; [exact Hs|]. split; [done|]. split.
    + intros Hall. apply Hok in Hall. discriminate Hall.
    + intros _. done.
Qed.

(** A step of the program leaves the subscriptions as they are, or the
    sender takes a subscribe request and their entry for its type is
    replaced. *)
Lemma sys_step_resources e y y' :
  sys_step rt e y = Some y' →
  resources (sys_t y') = resources (sys_t y) ∨
  ∃ r rest, e = EvSender CaseRequest ∧
            adsRequestCh (sys_t y) = ReqResource r :: rest ∧
            resources (sys_t y') =
              <[rr_url r := sliceToMap (rr_resources r)]> (resources (sys_t y)).
Proof.
  intros Hstep.
  destruct e as [url names| |c|r| | |r|]; simpl in Hstep.
  - injection Hstep as <-. by left.
  - injection Hstep as <-. by left.
  - destruct (sender_exited y); [done|].
    destruct (bool_decide (c = CaseDone) && negb (ctx_done y)); [done|].
    destruct c; simpl in Hstep.
    + injection Hstep as <-. by left.
    + destruct (chan_recv (adsStreamCh (sys_t y))) as [[s ch]|]; [|done].
      destruct (sendExisting_calls rt s (set_adsStreamCh ch (sys_t y)))
        as (_ & _ & Hr & _).
      cbv zeta in Hr. destruct (sendExisting rt s _) as [t1 ok]. simpl in Hr.
      injection Hstep as <-. by left.
    + destruct (adsRequestCh (sys_t y)) as [|u rest] eqn:Hqueue; [done|].
      destruct u as [q|a].
      * pose proof (send_request_subscribe rt (rr_url q) (rr_resources q)
                      (sender_stream y) (set_adsRequestCh rest (sys_t y)))
          as [_ Hr].
        cbv zeta in Hr. unfold subscribe_request in Hr.
        assert (mkResourceRequest (rr_resources q) (rr_url q) = q) as Hq0
          by (by destruct q).
        rewrite Hq0 in Hr.
        destruct (send_request rt _ _ _) as [st1 t1]. simpl in Hr.
        injection Hstep as <-. right. by exists q, rest.
      * assert (resources
                  (send_request rt (ReqAck a) (sender_stream y)
                     (set_adsRequestCh rest (sys_t y))).2 = resources (sys_t y))
          as Hr.
        { unfold send_request.
          destruct (decide (ack_stream a = sender_stream y)) as [<-|Hne].
          - rewrite processAckRequest_live. cbv zeta.
            destruct (subscribed _ (ack_url a)); [|done].
            destruct (ack_stream a) as [s|];
              destruct (ack_nackErr a); cbn [negb]; cbv iota;
              first [by rewrite send_on_stream_some | done].
          - by rewrite processAckRequest_stale. }
        destruct (send_request rt _ _ _) as [st1 t1]. simpl in Hr.
        injection Hstep as <-. by left.
  - destruct (runner_pc y); try done.
    destruct r as [s|err]; injection Hstep as <-; by left.
  - destruct (runner_pc y); try done. injection Hstep as <-. by left.
  - destruct (runner_pc y); try done.
    destruct (chan_send _ _); [|done]. injection Hstep as <-. by left.
  - destruct (runner_pc y) as [| | |s b|]; try done.
    pose proof (recv_iter_frame s r b (sys_t y)) as (_ & _ & _ & Hr & _).
    cbv zeta in Hr.
    destruct (recv_iter s r b (sys_t y)) as [[ctl b'] t1]. simpl in Hr.
    destruct ctl; injection Hstep as <-; by left.
  - destruct (runner_pc y); try done.
    destruct (ctx_done y); [|done]. injection Hstep as <-. by left.
Qed.

(** X9.  A subscribe request with no names sets the entry of its type to
    the empty set, whatever stream the sender has.  The entry stays empty
    through every step of the program but the sender taking another
    subscribe request for the type.  While it is empty, the requests
    [sendExisting] makes for the type all have an empty name list, and it
    makes one unless a [Send] on that stream fails first. *)
Theorem empty_subscribe_resent_as_wildcard url :
  (∀ stream t rest,
     adsRequestCh t = ReqResource (mkResourceRequest [] url) :: rest →
     ∃ stream' t',
       send_iter rt CaseRequest stream t = Some (Continue, stream', t') ∧
       resources t' !! url = Some ∅) ∧
  (∀ e y y',
     sys_step rt e y = Some y' →
     resources (sys_t y) !! url = Some ∅ →
     (∀ r rest, e = EvSender CaseRequest →
                adsRequestCh (sys_t y) = ReqResource r :: rest →
                rr_url r ≠ url) →
     resources (sys_t y') !! url = Some ∅) ∧
  (∀ t s sends,
     resources t !! url = Some ∅ →
     sent (sendExisting rt s t).1 = sent t ++ sends →
     (∀ c, c ∈ sends → TypeUrl (sc_req c) = url → ResourceNames (sc_req c) = []) ∧
     ((∃ c, c ∈ sends ∧ TypeUrl (sc_req c) = url ∧ ResourceNames (sc_req c) = []) ∨
      (∃ c e, last sends = Some c ∧ sc_err c = Some e))).
Proof.
  split; [|split].
  - intros stream t rest Hq. unfold send_iter. rewrite Hq.
    pose proof (send_request_subscribe rt url [] stream (set_adsRequestCh rest t))
      as [_ Hres].
    cbv zeta in Hres. unfold subscribe_request in Hres.
    destruct (send_request rt _ stream (set_adsRequestCh rest t)) as [st1 t1].
    simpl in Hres. exists st1, t1. split; [done|].
    by rewrite Hres, lookup_insert_eq.
  - intros e y y' Hstep Hentry Hother.
    destruct (sys_step_resources e y y' Hstep) as [->|(r & rest & -> & Hq & ->)];
      [done|].
    rewrite lookup_insert_ne; [done|]. by apply (Hother r rest).
  - intros t s sends Hentry Hs.
    destruct (sendExisting_for_type rt s t url _ sends Hentry Hs) as [Hall Hex].
    assert (mapToSlice rt (∅ : gmap string bool) = []) as Hnil
      by (by apply mapToSlice_nil).
    split.
    + intros c Hc Hurl. by rewrite (Hall c Hc Hurl).
    + destruct (sendExisting rt s t).2 eqn:Hok.
      * left. destruct (Hex eq_refl) as (c & Hc & Heq).
        exists c. rewrite Heq. done.
      * right. by apply (sendExisting_failed_last rt s t sends).
Qed.

Lemma go_range_empty {V} : go_range rt (∅ : gmap string V) = [].
Proof.
  apply Permutation_nil_r. rewrite (go_range_perm rt). by rewrite map_to_list_empty.
Qed.

(** X10.  A new stream handed to a sender whose transport has no
    subscriptions: the sender takes it out of the slot and keeps it, no
    [Send] is called, and the nonces are emptied. *)
Theorem new_stream_without_subscriptions s t :
  resources t = ∅ →
  chan_buf (adsStreamCh t) = [s] →
  ∃ t', send_iter rt CaseStream None t = Some (Continue, Some s, t') ∧
        sent t' = sent t ∧ nonces t' = ∅ ∧ versions t' = versions t ∧
        chan_buf (adsStreamCh t') = [].
Proof.
  intros Hres Hbuf. unfold send_iter, chan_recv. rewrite Hbuf.
  unfold sendExisting.
  change (resources (set_nonces ∅ (set_adsStreamCh _ t))) with (resources t).
  rewrite Hres, go_range_empty. simpl. eexists. split; [reflexivity|]. done.
Qed.

(** X19.  When the sender takes a new stream out of the slot, the stream
    it had is replaced whatever it was: by the new one when every [Send] of
    [sendExisting] succeeded, by none when one failed.  All calls are on
    the new stream, the nonces are emptied either way, and the versions and
    the subscriptions stay. *)
Theorem new_stream_replaces_old s old t :
  chan_buf (adsStreamCh t) = [s] →
  ∃ stream' t' calls,
    send_iter rt CaseStream old t = Some (Continue, stream', t') ∧
    sent t' = sent t ++ calls ∧
    Forall (fun c => sc_stream c = s) calls ∧
    (stream' = Some s ↔ Forall (fun c => sc_err c = None) calls) ∧
    (stream' = Some s ∨ stream' = None) ∧
    nonces t' = ∅ ∧ versions t' = versions t ∧ resources t' = resources t ∧
    chan_buf (adsStreamCh t') = [].
Proof.
  intros Hbuf. unfold send_iter, chan_recv. rewrite Hbuf.
  set (t1 := set_adsStreamCh (mkChan (chan_cap (adsStreamCh t)) []) t).
  destruct (sendExisting_calls rt s t1)
    as (Hn & Hv & Hr & calls & Hs & _ & Hstr & Hok & _).
  pose proof (sendExisting_chan rt s t1) as Hch.
  cbv zeta in *.
  destruct (sendExisting rt s t1) as [t2 ok]. simpl in *.
  exists (if ok then Some s else None), t2, calls.
  split; [done|]. split; [done|]. split; [done|]. split.
  - rewrite <- Hok. destruct ok; split; done.
  - split; [destruct ok; auto|]. rewrite Hch. done.
Qed.

End SenderWire.

(** ** The receiver over the life of a stream *)

Section ReceiverLife.

Lemma recv_iter_response stream resp b t :
  recv_iter stream (RecvOk resp) b t =
    (Continue, true,
     match ack_for (updateHandler t) (versions t) stream resp with
     | Some u => adsRequestCh_Put u t
     | None => t
     end).
Proof.
  unfold recv_iter, ack_for. simpl.
  destruct (updateHandler t _) as [e|]; simpl; [|done].
  by destruct (decide _).
Qed.

Lemma recv_loop_closed_form stream resps closing b t :
  recv_loop stream resps closing b t =
    (match resps with [] => b | _ :: _ => true end,
     set_reported
       (reported t ++ [fmt_Errorf "failed to read ADS response: %v" [] closing])
       (set_adsRequestCh
          (adsRequestCh t ++
           omap (ack_for (updateHandler t) (versions t) stream) resps) t)).
Proof.
  revert b t. induction resps as [|resp rest IH]; intros b t.
  - simpl. unfold adsStreamErrHandler. by rewrite app_nil_r.
  - cbn [recv_loop]. rewrite recv_iter_response, IH. f_equal.
    { by destruct rest. }
    cbn [omap list_omap].
    destruct (ack_for (updateHandler t) (versions t) stream resp) as [u|]; [|done].
    unfold adsRequestCh_Put. simpl. by rewrite <- app_assoc.
Qed.

(** X12.  A response for which the handler returns an error of the
    type-unsupported kind is skipped: nothing is enqueued and the transport
    is as before, the loop goes on with the next read, and the response
    still counts as received. *)
Theorem unsupported_response_is_skipped stream resp b t rest closing :
  ErrType (verdict t resp) = ErrorTypeResourceTypeUnsupported →
  recv_iter stream (RecvOk resp) b t = (Continue, true, t) ∧
  recv_loop stream (resp :: rest) closing b t =
    recv_loop stream rest closing true t ∧
  (recv stream (mkStreamLife (resp :: rest) closing) t).1 = true.
Proof.
  intros Hty.
  assert (recv_iter stream (RecvOk resp) b t = (Continue, true, t)) as Hiter.
  { rewrite recv_iter_response. unfold ack_for. unfold verdict in Hty.
    by rewrite decide_True. }
  split; [exact Hiter|]. split.
  - cbn [recv_loop]. by rewrite Hiter.
  - unfold recv. by rewrite recv_loop_closed_form.
Qed.

End ReceiverLife.

(** ** Attempts that fail to create a stream *)

Section FailedAttempts.
Context (rt : Runtime).

Lemma int_incr_small a : 0 ≤ a < int_max → int_incr a = a + 1.
Proof.
  intros Ha. unfold int_incr, int_wrap, int_max in *.
  rewrite Z.mod_small; lia.
Qed.

Lemma failed_attempts_run (errs : list error) y :
  runner_pc y = AtTimer →
  0 ≤ backoffAttempt (runner y) →
  backoffAttempt (runner y) + Z.of_nat (length errs) ≤ int_max →
  ∃ y', sys_run rt (EvNewStream ∘ inr <$> errs) y = Some y' ∧
        runner_pc y' = AtTimer ∧
        backoffAttempt (runner y') =
          backoffAttempt (runner y) + Z.of_nat (length errs) ∧
        (errs ≠ [] →
         backoffTimer (runner y') =
           backoff (sys_t y)
             (backoffAttempt (runner y) + Z.of_nat (length errs) - 1)) ∧
        reported (sys_t y') = reported (sys_t y) ++ errs ∧
        backoff (sys_t y') = backoff (sys_t y) ∧
        sent (sys_t y') = sent (sys_t y) ∧
        adsStreamCh (sys_t y') = adsStreamCh (sys_t y) ∧
        published y' = published y.
Proof.
  revert y. induction errs as [|e errs IH]; intros y Hpc Ha Hmax.
  - exists y. simpl. rewrite app_nil_r. repeat split; try done. lia.
  - rewrite fmap_cons. cbn [sys_run sys_step compose]. rewrite Hpc.
    cbn [length] in Hmax.
    match goal with
    | |- context [sys_run rt _ ?y1] =>
        destruct (IH y1) as (y' & Hrun & Hpc' & Hcnt & Htimer & Hrep & Hb & Hs & Hch & Hpub)
    end.
    + done.
    + simpl. rewrite int_incr_small; lia.
    + simpl. rewrite int_incr_small; lia.
    + exists y'. split; [exact Hrun|]. simpl in *.
      rewrite int_incr_small in Hcnt, Htimer by lia.
      split; [done|]. split; [lia|]. split; [|split; [|done]].
      * intros _. destruct errs as [|e' errs'].
        -- simpl in Hrun. injection Hrun as <-. simpl. f_equal. lia.
        -- rewrite Htimer by done. f_equal. cbn [length]. lia.
      * rewrite Hrep. by rewrite <- app_assoc.
Qed.

(** X13.  From the start of the runner, a run of attempts that all fail
    to create a stream hands every error to the stream error handler, in
    order, pushes and sends nothing, and leaves the attempt counter at the
    number of attempts and the timer at [backoff] of that number less
    one. *)
Theorem failed_attempts_back_off (errs : list error) t :
  errs ≠ [] →
  Z.of_nat (length errs) ≤ int_max →
  ∃ y, sys_run rt (EvNewStream ∘ inr <$> errs) (sys_init t) = Some y ∧
       runner y = mkRunner (Z.of_nat (length errs))
                    (backoff t (Z.of_nat (length errs) - 1)) ∧
       runner_pc y = AtTimer ∧
       reported (sys_t y) = reported t ++ errs ∧
       sent (sys_t y) = sent t ∧
       adsStreamCh (sys_t y) = adsStreamCh t ∧
       published y = [].
Proof.
  intros Hne Hmax.
  destruct (failed_attempts_run errs (sys_init t))
    as (y & Hrun & Hpc & Hcnt & Htimer & Hrep & _ & Hs & Hch & Hpub);
    [done|done|simpl; lia|].
  exists y. split; [exact Hrun|]. simpl in *.
  specialize (Htimer Hne).
  destruct (runner y) as [a d]. simpl in *. subst a d.
  repeat split; done.
Qed.

End FailedAttempts.

(** ** The transport [New] returns *)

Section Constructed.
Context (rt : Runtime).

(** X14.  The transport that [New] returns has no subscriptions, versions
    or nonces, an empty request queue, an empty slot of capacity one for
    the stream, the server URI, the node and the update handler of the
    options, and the backoff of the options, or the default exponential
    one when the options have none. *)
Theorem New_initial_state opts t :
  New rt opts = inl t →
  resources t = ∅ ∧ versions t = ∅ ∧ nonces t = ∅ ∧
  adsRequestCh t = [] ∧ adsStreamCh t = make_chan 1 ∧
  sent t = [] ∧ reported t = [] ∧
  serverURI t = ServerURI (ServerCfg opts) ∧
  nodeProto t = NodeProto opts ∧
  UpdateHandler opts = Some (updateHandler t) ∧
  backoff t = default (DefaultExponential_Backoff rt) (Backoff opts).
Proof.
  unfold New. intros Hnew.
  destruct (decide _); [done|].
  destruct (Creds _); [|done]. destruct (UpdateHandler _); [|done].
  destruct (StreamErrorHandler _); [|done]. destruct (grpcDial _ _ _); [|done].
  injection Hnew as <-. simpl. repeat split.
Qed.

End Constructed.

(** ** Invariants of the program *)

Section Invariants.
Context (rt : Runtime).

Lemma subscribed_names t url :
  subscribed t url = true →
  mapToSlice rt (default ∅ (resources t !! url)) ≠ [].
Proof.
  unfold subscribed. destruct (resources t !! url) as [s|]; [|done].
  simpl. intros Hsz Hnil. apply mapToSlice_nil in Hnil. subst s.
  by rewrite map_size_empty in Hsz.
Qed.

(** The calls of [Send] one request makes. *)
Lemma send_request_calls u stream t :
  ∃ calls,
    sent (send_request rt u stream t).2 = sent t ++ calls ∧
    Forall (fun c => stream = Some (sc_stream c) ∧ nack_has_names c) calls ∧
    ((send_request rt u stream t).1 = stream ∨
     (send_request rt u stream t).1 = None) ∧
    adsRequestCh (send_request rt u stream t).2 = adsRequestCh t.
Proof.
  destruct u as [q|a].
  - unfold send_request, processResourceRequest. destruct stream as [s|].
    + rewrite send_on_stream_some. cbv zeta. simpl. eexists [_].
      split; [done|]. split.
      * constructor; [|constructor]. split; [done|]. intros Hd. by destruct Hd.
      * split; [|done]. destruct (stream_Send rt _ s _); auto.
    + exists []. simpl. rewrite app_nil_r. repeat split; auto.
  - destruct (decide (ack_stream a = stream)) as [<-|Hne].
    + unfold send_request. rewrite processAckRequest_live. cbv zeta.
      destruct (subscribed t (ack_url a)) eqn:Hsub.
      * pose proof (subscribed_names t _ Hsub) as Hnames.
        destruct (ack_stream a) as [s|].
        -- destruct (ack_nackErr a) as [e|]; simpl negb; cbv iota;
             rewrite send_on_stream_some; cbv zeta; simpl; eexists [_];
             (split; [done|]); (split; [|split; [|done]]);
             try (destruct (stream_Send rt _ s _); auto; fail);
             (constructor; [|constructor]); (split; [done|]);
             intros _; exact Hnames.
        -- exists []. destruct (ack_nackErr a); simpl; rewrite app_nil_r;
             repeat split; auto.
      * exists []. simpl. rewrite app_nil_r. repeat split; auto.
    + unfold send_request. rewrite processAckRequest_stale by done.
      exists []. simpl. rewrite app_nil_r. repeat split; auto.
Qed.

(** The calls of [Send] that [sendExisting] makes carry no error detail. *)
Lemma sendExisting_calls_plain s t :
  ∃ calls,
    sent (sendExisting rt s t).1 = sent t ++ calls ∧
    Forall (fun c => sc_stream c = s ∧ nack_has_names c) calls.
Proof.
  destruct (sendExisting_calls rt s t) as (_ & _ & _ & calls & Hs & Hreq & Hstr & _).
  cbv zeta in *. exists calls. split; [done|].
  apply Forall_forall. intros c Hc. split.
  - by apply (proj1 (Forall_forall _ _) Hstr).
  - assert (sc_req c ∈ sc_req <$> calls) as Hin by (by apply list_elem_of_fmap_2).
    rewrite Hreq in Hin. apply subseteq_take in Hin.
    apply list_elem_of_fmap in Hin as (e & Heq & _).
    intros Hd. rewrite Heq in Hd. by destruct Hd.
Qed.

Lemma sendExisting_queue s t :
  adsRequestCh (sendExisting rt s t).1 = adsRequestCh t.
Proof. unfold sendExisting. by rewrite sendExisting_range_queue. Qed.

(** The two invariants, kept by every step. *)
Lemma wire_inv_step e y y' :
  streams_published y ∧ Forall nack_has_names (sent (sys_t y)) →
  sys_step rt e y = Some y' →
  streams_published y' ∧ Forall nack_has_names (sent (sys_t y')).
Proof.
  unfold streams_published.
  intros [(Hsnd & Hsent & Hq & Hrecv & Hbuf) Hnack] Hstep.
  destruct e as [url names| |c|r| | |r|]; simpl in Hstep.
  - injection Hstep as <-. simpl. repeat split; try done.
    apply Forall_app. split; [done|]. constructor; [|constructor].
    intros a Ha. discriminate Ha.
  - injection Hstep as <-. done.
  - destruct (sender_exited y); [done|].
    destruct (bool_decide (c = CaseDone) && negb (ctx_done y)); [done|].
    destruct c; simpl in Hstep.
    + injection Hstep as <-. done.
    + unfold chan_recv in Hstep.
      destruct (adsStreamCh (sys_t y)) as [cap buf] eqn:Hch. simpl in *.
      destruct buf as [|s buf]; [done|].
      set (t1 := set_adsStreamCh (mkChan cap buf) (sys_t y)) in *.
      pose proof (sendExisting_chan rt s t1) as Hch'.
      pose proof (sendExisting_queue s t1) as Hq'.
      destruct (sendExisting_calls_plain s t1) as (calls & Hs' & Hcalls).
      destruct (sendExisting rt s t1) as [t2 ok]. simpl in Hch', Hq', Hs'.
      injection Hstep as <-. simpl. rewrite Hch', Hq', Hs'. simpl.
      assert (s ∈ published y) as Hspub by (apply Hbuf; left).
      repeat split; try done.
      * intros s'. destruct ok; [|done]. by intros [= <-].
      * apply Forall_app. split; [done|].
        eapply Forall_impl; [exact Hcalls|]. by intros c [-> _].
      * intros s' Hin. apply Hbuf. by right.
      * apply Forall_app. split; [done|].
        eapply Forall_impl; [exact Hcalls|]. by intros c [_ ?].
    + destruct (adsRequestCh (sys_t y)) as [|u rest] eqn:Hqueue; [done|].
      set (t1 := set_adsRequestCh rest (sys_t y)) in *.
      pose proof (send_request_chan rt u (sender_stream y) t1) as Hch'.
      destruct (send_request_calls u (sender_stream y) t1)
        as (calls & Hs' & Hcalls & Hst & Hq').
      destruct (send_request rt u (sender_stream y) t1) as [st2 t2].
      simpl in Hch', Hs', Hst, Hq'.
      injection Hstep as <-. simpl. rewrite Hch', Hs', Hq'. simpl.
      apply Forall_cons in Hq as [_ Hrest].
      repeat split; try done.
      * intros s' Hs2. destruct Hst as [->| ->]; [by apply Hsnd|done].
      * apply Forall_app. split; [done|].
        eapply Forall_impl; [exact Hcalls|]. intros c [Hc _]. by apply Hsnd.
      * apply Forall_app. split; [done|].
        eapply Forall_impl; [exact Hcalls|]. by intros c [_ ?].
  - destruct (runner_pc y); try done.
    destruct r as [s|err]; injection Hstep as <-; simpl; repeat split; done.
  - destruct (runner_pc y) as [|s| | |]; try done.
    injection Hstep as <-. simpl. repeat split; try done.
    intros s' Hin. apply Hbuf. unfold chan_drain, chan_recv in Hin.
    destruct (adsStreamCh (sys_t y)) as [cap buf]. simpl in *.
    destruct buf as [|x buf]; [done|]. simpl in Hin. by right.
  - destruct (runner_pc y) as [| |s| |] eqn:Hpc; try done.
    unfold chan_send in Hstep. case_decide; [|done].
    injection Hstep as <-. simpl. repeat split; try done.
    + intros s' Hs'. right. by apply Hsnd.
    + eapply Forall_impl; [exact Hsent|]. intros c Hc. by right.
    + eapply Forall_impl; [exact Hq|]. intros u Hu a Ha.
      destruct (Hu a Ha) as (s' & ? & ?). exists s'. split; [done|by right].
    + intros s' b [= <-]. by left.
    + intros s' [Hin| ->%list_elem_of_singleton]%elem_of_app;
        [right; by apply Hbuf|by left].
  - destruct (runner_pc y) as [| | |s b|] eqn:Hpc; try done.
    assert (s ∈ published y) as Hspub by (by apply (Hrecv s b)).
    destruct r as [resp|err].
    + rewrite recv_iter_response in Hstep. injection Hstep as <-. simpl.
      unfold ack_for.
      destruct (decide _); simpl; repeat split; try done.
      * intros s' b' [= <-]. done.
      * apply Forall_app. split; [done|]. constructor; [|constructor].
        intros a [= <-]. by exists s.
      * intros s' b' [= <-]. done.
    + unfold recv_iter in Hstep. simpl in Hstep.
      injection Hstep as <-. simpl. repeat split; done.
  - destruct (runner_pc y); try done.
    destruct (ctx_done y); [|done].
    injection Hstep as <-. done.
Qed.

Lemma wire_inv_run es y y' :
  streams_published y ∧ Forall nack_has_names (sent (sys_t y)) →
  sys_run rt es y = Some y' →
  streams_published y' ∧ Forall nack_has_names (sent (sys_t y')).
Proof.
  revert y. induction es as [|e es IH]; intros y Hinv Hrun; simpl in Hrun.
  - by injection Hrun as <-.
  - destruct (sys_step rt e y) as [y1|] eqn:Hstep; [|done].
    eauto using wire_inv_step.
Qed.

Lemma wire_inv_init opts t :
  New rt opts = inl t →
  streams_published (sys_init t) ∧ Forall nack_has_names (sent (sys_t (sys_init t))).
Proof.
  unfold New. intros Hnew.
  destruct (decide _); [done|].
  destruct (Creds _); [|done]. destruct (UpdateHandler _); [|done].
  destruct (StreamErrorHandler _); [|done]. destruct (grpcDial _ _ _); [|done].
  injection Hnew as <-. unfold streams_published. simpl.
  repeat split; try done; try constructor.
Qed.

(** X15.  In every state the program reaches after construction, every
    call of [Send] that carried an error detail (a NACK) named at least one
    resource: a NACK never goes out with the empty name list that a server
    reads as a wildcard. *)
Theorem nack_never_without_names opts t0 es y c :
  New rt opts = inl t0 →
  sys_run rt es (sys_init t0) = Some y →
  c ∈ sent (sys_t y) →
  ErrorDetail (sc_req c) ≠ None →
  ResourceNames (sc_req c) ≠ [].
Proof.
  intros Hnew Hrun Hc.
  destruct (wire_inv_run es _ y (wire_inv_init opts t0 Hnew) Hrun) as [_ Hall].
  by apply (proj1 (Forall_forall _ _) Hall).
Qed.

(** X16.  In every state the program reaches after construction, the
    stream of the sender, the stream of every call of [Send] made so far and
    the stream every queued ACK/NACK request is tagged with are streams the
    runner created and pushed; no queued ACK/NACK request carries a nil
    stream. *)
Theorem only_published_streams_used opts t0 es y :
  New rt opts = inl t0 →
  sys_run rt es (sys_init t0) = Some y →
  (∀ s, sender_stream y = Some s → s ∈ published y) ∧
  (∀ c, c ∈ sent (sys_t y) → sc_stream c ∈ published y) ∧
  (∀ a, ReqAck a ∈ adsRequestCh (sys_t y) →
        ∃ s, ack_stream a = Some s ∧ s ∈ published y).
Proof.
  intros Hnew Hrun.
  destruct (wire_inv_run es _ y (wire_inv_init opts t0 Hnew) Hrun)
    as [(Hsnd & Hsent & Hq & _) _].
  split; [done|]. split.
  - intros c Hc. by apply (proj1 (Forall_forall _ _) Hsent).
  - intros a Ha. by apply (proj1 (Forall_forall _ _) Hq (ReqAck a) Ha).
Qed.

End Invariants.

(** ** Who writes the three tables *)

Section Writers.
Context (rt : Runtime).

Lemma send_request_tables u stream t :
  let r := send_request rt u stream t in
  match u with
  | ReqResource q =>
      versions r.2 = versions t ∧ nonces r.2 = nonces t
  | ReqAck a =>
      resources r.2 = resources t ∧
      (ack_stream a ≠ stream → versions r.2 = versions t ∧ nonces r.2 = nonces t)
  end.
Proof.
  cbv zeta. destruct u as [q|a]; unfold send_request.
  - unfold processResourceRequest. destruct stream as [s|]; [|done].
    by rewrite send_on_stream_some.
  - split.
    + destruct (decide (ack_stream a = stream)) as [<-|Hne].
      * rewrite processAckRequest_live. cbv zeta.
        destruct (subscribed t (ack_url a)); [|done].
        destruct (ack_stream a) as [s|];
          destruct (ack_nackErr a); cbn [negb]; cbv iota;
          first [by rewrite send_on_stream_some | done].
      * by rewrite processAckRequest_stale.
    + intros Hne. by rewrite processAckRequest_stale.
Qed.

(** X17.  One step of the program changes the subscriptions only when
    the sender takes a subscribe request, the versions only when the sender
    takes an ACK/NACK request made on its own stream, and the nonces only
    then or when the sender takes a new stream, which empties them.  The
    receiver, the runner and the callers write none of the three. *)
Theorem tables_written_by_sender_only e y y' :
  sys_step rt e y = Some y' →
  (¬ takes_subscribe e y → resources (sys_t y') = resources (sys_t y)) ∧
  (¬ takes_ack e y → versions (sys_t y') = versions (sys_t y)) ∧
  (¬ takes_ack e y → ¬ takes_stream e y →
   nonces (sys_t y') = nonces (sys_t y)) ∧
  (takes_stream e y → nonces (sys_t y') = ∅).
Proof.
  intros Hstep. unfold takes_subscribe, takes_ack, takes_stream.
  destruct e as [url names| |c|r| | |r|]; simpl in Hstep.
  - injection Hstep as <-. done.
  - injection Hstep as <-. done.
  - destruct (sender_exited y); [done|].
    destruct (bool_decide (c = CaseDone) && negb (ctx_done y)); [done|].
    destruct c; simpl in Hstep.
    + injection Hstep as <-. done.
    + destruct (chan_recv (adsStreamCh (sys_t y))) as [[s ch]|]; [|done].
      destruct (sendExisting_calls rt s (set_adsStreamCh ch (sys_t y)))
        as (Hn & Hv & Hr & _).
      cbv zeta in Hn, Hv, Hr.
      destruct (sendExisting rt s _) as [t1 ok]. simpl in Hn, Hv, Hr.
      injection Hstep as <-. simpl. repeat split; done.
    + destruct (adsRequestCh (sys_t y)) as [|u rest] eqn:Hq; [done|].
      pose proof (send_request_tables u (sender_stream y)
                    (set_adsRequestCh rest (sys_t y))) as Htab.
      pose proof (send_request_subscribe rt) as Hsub.
      cbv zeta in Htab.
      destruct u as [q|a].
      * destruct Htab as [Hv Hn].
        destruct (send_request rt _ _ _) as [st1 t1]. simpl in Hv, Hn.
        injection Hstep as <-. simpl. repeat split; try done.
        intros Hns. destruct Hns. split; [done|]. by exists q, rest.
      * destruct Htab as [Hr Hvn].
        destruct (send_request rt _ _ _) as [st1 t1]. simpl in Hr, Hvn.
        injection Hstep as <-. simpl.
        assert (¬ (EvSender CaseRequest = EvSender CaseRequest ∧
                   ∃ a0 rest0, ReqAck a :: rest = ReqAck a0 :: rest0 ∧
                               ack_stream a0 = sender_stream y) →
                ack_stream a ≠ sender_stream y) as Hstale.
        { intros Hna Heq. apply Hna. split; [done|]. by exists a, rest. }
        repeat split; try done.
        -- intros Hna. by apply Hvn, Hstale.
        -- intros Hna _. by apply Hvn, Hstale.
  - destruct (runner_pc y); try done.
    destruct r as [s|err]; injection Hstep as <-; done.
  - destruct (runner_pc y); try done. injection Hstep as <-. done.
  - destruct (runner_pc y); try done.
    destruct (chan_send _ _); [|done]. injection Hstep as <-. done.
  - destruct (runner_pc y) as [| | |s b|]; try done.
    pose proof (recv_iter_frame s r b (sys_t y)) as (_ & Hv & Hn & Hr & _).
    cbv zeta in Hv, Hn, Hr.
    destruct (recv_iter s r b (sys_t y)) as [[ctl b'] t1]. simpl in Hv, Hn, Hr.
    destruct ctl; injection Hstep as <-; done.
  - destruct (runner_pc y); try done.
    destruct (ctx_done y); [|done]. injection Hstep as <-. done.
Qed.

End Writers.

(** ** [Close] *)

Section Closing.
Context (rt : Runtime).

(** How a step of the program moves the flags of cancellation and exit. *)
Lemma sys_step_flags e y y' :
  sys_step rt e y = Some y' →
  (ctx_done y' = true → ctx_done y = true ∨ e = EvCancel) ∧
  (ctx_done y = true → ctx_done y' = true) ∧
  (runner_pc y = Exited → runner_pc y' = Exited) ∧
  (runner_pc y' = Exited → runner_pc y = Exited ∨ ctx_done y = true) ∧
  (sender_exited y' = true → sender_exited y = true ∨ ctx_done y = true).
Proof.
  intros Hstep.
  destruct e as [url names| |c|r| | |r|]; simpl in Hstep.
  - injection Hstep as <-. simpl. naive_solver.
  - injection Hstep as <-. simpl. naive_solver.
  - destruct (sender_exited y); [done|].
    destruct c; simpl in Hstep.
    + destruct (ctx_done y) eqn:Hctx; [|done].
      injection Hstep as <-. simpl. naive_solver.
    + destruct (chan_recv _) as [[s ch]|]; [|done].
      destruct (sendExisting rt s _) as [t1 ok].
      injection Hstep as <-. simpl. naive_solver.
    + destruct (adsRequestCh (sys_t y)) as [|u rest]; [done|].
      destruct (send_request rt _ _ _) as [st1 t1].
      injection Hstep as <-. simpl. naive_solver.
  - destruct (runner_pc y); try done.
    destruct r as [s|err]; injection Hstep as <-; simpl; naive_solver.
  - destruct (runner_pc y); try done.
    injection Hstep as <-. simpl. naive_solver.
  - destruct (runner_pc y); try done.
    destruct (chan_send _ _); [|done].
    injection Hstep as <-. simpl. naive_solver.
  - destruct (runner_pc y) as [| | |s b|]; try done.
    destruct (recv_iter s r b (sys_t y)) as [[ctl b'] t1].
    destruct ctl; injection Hstep as <-; simpl; naive_solver.
  - destruct (runner_pc y); try done.
    destruct (ctx_done y) eqn:Hctx; [|done].
    injection Hstep as <-. simpl. naive_solver.
Qed.

Lemma close_inv_step e z z' :
  ((ctx_done (sysc z) = false →
    close_waiting z = 0%nat ∧ runner_pc (sysc z) ≠ Exited ∧
    sender_exited (sysc z) = false) ∧
   (cc_closed z = true →
    runner_pc (sysc z) = Exited ∧ ctx_done (sysc z) = true)) →
  sysc_step rt e z = Some z' →
  (ctx_done (sysc z') = false →
   close_waiting z' = 0%nat ∧ runner_pc (sysc z') ≠ Exited ∧
   sender_exited (sysc z') = false) ∧
  (cc_closed z' = true →
   runner_pc (sysc z') = Exited ∧ ctx_done (sysc z') = true).
Proof.
  intros [Hlive Hclosed] Hstep.
  assert (∀ e0 y', e0 ≠ EvCancel → sys_step rt e0 (sysc z) = Some y' →
            (ctx_done y' = false →
             close_waiting z = 0%nat ∧ runner_pc y' ≠ Exited ∧
             sender_exited y' = false) ∧
            (cc_closed z = true → runner_pc y' = Exited ∧ ctx_done y' = true))
    as Hprog.
  { intros e0 y' Hne Hs.
    destruct (sys_step_flags e0 _ _ Hs) as (Hc1 & Hc2 & Hx1 & Hx2 & Hs1).
    split.
    - intros Hctx.
      assert (ctx_done (sysc z) = false) as Hctx0.
      { destruct (ctx_done (sysc z)); [|done]. by rewrite Hc2 in Hctx. }
      destruct (Hlive Hctx0) as (Hw & Hpc & Hse). split; [done|]. split.
      + intros Hex. destruct (Hx2 Hex) as [?|?]; [done|congruence].
      + destruct (sender_exited y') eqn:Hse'; [|done].
        destruct (Hs1 eq_refl) as [?|?]; congruence.
    - intros Hcc. destruct (Hclosed Hcc) as [Hpc Hctx]. auto. }
  destruct e as [e| |]; simpl in Hstep.
  - destruct e; try done;
      (match type of Hstep with
       | _ <$> ?o = _ => destruct o as [y'|] eqn:Hs; [|done]
       end);
      injection Hstep as <-; simpl; eapply Hprog; try exact Hs; done.
  - injection Hstep as <-. simpl. split; [done|]. intros Hcc.
    destruct (Hclosed Hcc) as [Hpc _]. done.
  - destruct (close_waiting z) as [|n]; [done|].
    destruct (runner_pc (sysc z)) eqn:Hpc; try done.
    injection Hstep as <-. simpl. split.
    + intros Hctx. destruct (Hlive Hctx) as (? & ? & _). done.
    + intros _. split; [done|].
      destruct (ctx_done (sysc z)) eqn:Hctx; [done|].
      destruct (Hlive eq_refl) as (? & ? & _). done.
Qed.

Lemma close_inv_run es z z' :
  ((ctx_done (sysc z) = false →
    close_waiting z = 0%nat ∧ runner_pc (sysc z) ≠ Exited ∧
    sender_exited (sysc z) = false) ∧
   (cc_closed z = true →
    runner_pc (sysc z) = Exited ∧ ctx_done (sysc z) = true)) →
  sysc_run rt es z = Some z' →
  (ctx_done (sysc z') = false →
   close_waiting z' = 0%nat ∧ runner_pc (sysc z') ≠ Exited ∧
   sender_exited (sysc z') = false) ∧
  (cc_closed z' = true →
   runner_pc (sysc z') = Exited ∧ ctx_done (sysc z') = true).
Proof.
  revert z. induction es as [|e es IH]; intros z Hinv Hrun; simpl in Hrun.
  - by injection Hrun as <-.
  - destruct (sysc_step rt e z) as [z1|] eqn:Hstep; [|done].
    eauto using close_inv_step.
Qed.

(** X18.  In every run of the program with callers of [Close]: when
    [cc.Close] has been called, the context is cancelled and the runner has
    returned; and as long as no caller has cancelled the context, neither
    the runner nor the sender has returned and the connection is open. *)
Theorem close_waits_for_runner es t z :
  sysc_run rt es (sysc_init t) = Some z →
  (cc_closed z = true →
   runner_pc (sysc z) = Exited ∧ ctx_done (sysc z) = true) ∧
  (ctx_done (sysc z) = false →
   runner_pc (sysc z) ≠ Exited ∧ sender_exited (sysc z) = false ∧
   cc_closed z = false).
Proof.
  intros Hrun.
  destruct (close_inv_run es (sysc_init t) z) as [Hlive Hclosed];
    [done|exact Hrun|].
  split; [done|]. intros Hctx. destruct (Hlive Hctx) as (_ & ? & ?).
  repeat split; try done.
  destruct (cc_closed z) eqn:Hcc; [|done].
  destruct (Hclosed eq_refl) as [_ ?]. congruence.
Qed.

End Closing.

(** ** Subscribe calls, the queue and the subscriptions *)

Section SubscribeCalls.
Context (rt : Runtime).

Lemma last_names_snoc url l r :
  last_names url (l ++ [r]) =
    if decide (rr_url r = url) then Some (rr_resources r) else last_names url l.
Proof.
  unfold last_names. rewrite omap_app. simpl.
  case_decide; [apply last_snoc|by rewrite app_nil_r].
Qed.

Lemma last_names_app_none url l1 l2 :
  last_names url l2 = None → last_names url (l1 ++ l2) = last_names url l1.
Proof.
  unfold last_names. rewrite omap_app. intros Hn%last_None.
  by rewrite Hn, app_nil_r.
Qed.

(** The subscriptions after the requests of a list were taken in order. *)
Lemma subscriptions_after (l : list resourceRequest) (url : string) :
  foldl (fun m r => <[rr_url r := sliceToMap (rr_resources r)]> m)
    (∅ : gmap string (gmap string bool)) l !! url =
  sliceToMap <$> last_names url l.
Proof.
  induction l as [|r l IH] using rev_ind; [done|].
  rewrite foldl_app, last_names_snoc. simpl.
  case_decide as Hurl.
  - subst url. by rewrite lookup_insert_eq.
  - by rewrite lookup_insert_ne.
Qed.

(** The calls made are the requests the sender has taken followed by the
    requests that wait, and the subscriptions are what the taken requests
    leave: kept by every step. *)
Lemma taken_inv_step e y y' made taken :
  made = taken ++ pending_subscribes (adsRequestCh (sys_t y)) →
  resources (sys_t y) =
    foldl (fun m r => <[rr_url r := sliceToMap (rr_resources r)]> m) ∅ taken →
  sys_step rt e y = Some y' →
  ∃ taken',
    made ++ calls_made [e] =
      taken' ++ pending_subscribes (adsRequestCh (sys_t y')) ∧
    resources (sys_t y') =
      foldl (fun m r => <[rr_url r := sliceToMap (rr_resources r)]> m) ∅ taken'.
Proof.
  intros Hmade Hres Hstep. unfold pending_subscribes, calls_made in *.
  destruct e as [url names| |c|r| | |r|]; simpl in Hstep.
  - injection Hstep as <-. exists taken. simpl.
    rewrite omap_app, Hmade. simpl. by rewrite <- app_assoc.
  - injection Hstep as <-. exists taken. simpl. by rewrite app_nil_r.
  - destruct (sender_exited y); [done|].
    destruct (bool_decide (c = CaseDone) && negb (ctx_done y)); [done|].
    destruct c; simpl in Hstep.
    + injection Hstep as <-. exists taken. simpl. by rewrite app_nil_r.
    + destruct (chan_recv (adsStreamCh (sys_t y))) as [[s ch]|]; [|done].
      destruct (sendExisting_calls rt s (set_adsStreamCh ch (sys_t y)))
        as (_ & _ & Hr & _).
      pose proof (sendExisting_queue rt s (set_adsStreamCh ch (sys_t y))) as Hq.
      cbv zeta in Hr.
      destruct (sendExisting rt s _) as [t1 ok]. simpl in Hr, Hq.
      injection Hstep as <-. exists taken. simpl.
      by rewrite app_nil_r, Hq, Hr.
    + destruct (adsRequestCh (sys_t y)) as [|u rest] eqn:Hqueue; [done|].
      destruct (send_request_calls rt u (sender_stream y)
                  (set_adsRequestCh rest (sys_t y))) as (_ & _ & _ & _ & Hq).
      destruct u as [q|a].
      * pose proof (send_request_subscribe rt (rr_url q) (rr_resources q)
                      (sender_stream y) (set_adsRequestCh rest (sys_t y)))
          as [_ Hr].
        cbv zeta in Hr. unfold subscribe_request in Hr.
        assert (mkResourceRequest (rr_resources q) (rr_url q) = q) as Hq0
          by (by destruct q).
        rewrite Hq0 in Hr.
        destruct (send_request rt _ _ _) as [st1 t1]. simpl in Hr, Hq.
        injection Hstep as <-. exists (taken ++ [q]). simpl.
        rewrite app_nil_r, Hq, Hr, foldl_app, Hmade. simpl.
        rewrite <- Hres. by rewrite <- app_assoc.
      * pose proof (send_request_tables rt (ReqAck a) (sender_stream y)
                      (set_adsRequestCh rest (sys_t y))) as [Hr _].
        cbv zeta in Hr.
        destruct (send_request rt _ _ _) as [st1 t1]. simpl in Hr, Hq.
        injection Hstep as <-. exists taken. simpl.
        by rewrite app_nil_r, Hq, Hr.
  - destruct (runner_pc y); try done.
    destruct r as [s|err]; injection Hstep as <-; exists taken; simpl;
      by rewrite app_nil_r.
  - destruct (runner_pc y); try done. injection Hstep as <-.
    exists taken. simpl. by rewrite app_nil_r.
  - destruct (runner_pc y); try done.
    destruct (chan_send _ _); [|done]. injection Hstep as <-.
    exists taken. simpl. by rewrite app_nil_r.
  - destruct (runner_pc y) as [| | |s b|]; try done.
    destruct r as [resp|err].
    + rewrite recv_iter_response in Hstep. injection Hstep as <-.
      exists taken. simpl. rewrite app_nil_r. unfold ack_for.
      destruct (decide _); simpl; [done|].
      rewrite omap_app. simpl. by rewrite app_nil_r.
    + unfold recv_iter in Hstep. simpl in Hstep. injection Hstep as <-.
      exists taken. simpl. by rewrite app_nil_r.
  - destruct (runner_pc y); try done.
    destruct (ctx_done y); [|done]. injection Hstep as <-.
    exists taken. simpl. by rewrite app_nil_r.
Qed.

Lemma taken_inv_run es y y' made taken :
  made = taken ++ pending_subscribes (adsRequestCh (sys_t y)) →
  resources (sys_t y) =
    foldl (fun m r => <[rr_url r := sliceToMap (rr_resources r)]> m) ∅ taken →
  sys_run rt es y = Some y' →
  ∃ taken',
    made ++ calls_made es =
      taken' ++ pending_subscribes (adsRequestCh (sys_t y')) ∧
    resources (sys_t y') =
      foldl (fun m r => <[rr_url r := sliceToMap (rr_resources r)]> m) ∅ taken'.
Proof.
  revert y made taken. induction es as [|e es IH]; intros y made taken Hm Hr Hrun.
  - simpl in Hrun. injection Hrun as <-. exists taken.
    unfold calls_made. simpl. by rewrite app_nil_r.
  - simpl in Hrun. destruct (sys_step rt e y) as [y1|] eqn:Hstep; [|done].
    destruct (taken_inv_step e y y1 made taken Hm Hr Hstep) as (tk1 & Hm1 & Hr1).
    destruct (IH y1 _ tk1 Hm1 Hr1 Hrun) as (tk2 & Hm2 & Hr2).
    exists tk2. split; [|done]. rewrite <- Hm2.
    change (e :: es) with ([e] ++ es). unfold calls_made.
    by rewrite omap_app, app_assoc.
Qed.

(** [New] returns a transport without subscriptions or queued requests. *)
Lemma New_starts_empty opts t :
  New rt opts = inl t → resources t = ∅ ∧ adsRequestCh t = [].
Proof.
  unfold New. intros Hnew.
  destruct (decide _); [done|].
  destruct (Creds _); [|done]. destruct (UpdateHandler _); [|done].
  destruct (StreamErrorHandler _); [|done]. destruct (grpcDial _ _ _); [|done].
  by injection Hnew as <-.
Qed.

(** C7 (amended).  In every state the program reaches after construction,
    the subscribe calls made so far are, in call order, the requests the
    sender has taken followed by the requests that still wait in the queue.
    The entry of a type in the subscriptions is the set of the names of the
    last call for the type that the sender has taken; this is the last call
    made for the type when no request for the type waits.  When the sender
    then takes a new stream, every request it makes for the type carries
    the names of that entry, each once, and such a request is made unless a
    [Send] on the new stream fails first. *)
Theorem last_subscribe_wins opts t0 es y :
  New rt opts = inl t0 →
  sys_run rt es (sys_init t0) = Some y →
  ∃ taken,
    calls_made es = taken ++ pending_subscribes (adsRequestCh (sys_t y)) ∧
    (∀ url, resources (sys_t y) !! url = sliceToMap <$> last_names url taken) ∧
    (∀ url, last_names url (pending_subscribes (adsRequestCh (sys_t y))) = None →
            last_names url taken = last_names url (calls_made es)) ∧
    (∀ url names y',
       last_names url taken = Some names →
       sys_step rt (EvSender CaseStream) y = Some y' →
       ∃ sends,
         sent (sys_t y') = sent (sys_t y) ++ sends ∧
         (∀ c, c ∈ sends → TypeUrl (sc_req c) = url →
               NoDup (ResourceNames (sc_req c)) ∧
               ∀ x, x ∈ ResourceNames (sc_req c) ↔ x ∈ names) ∧
         ((∃ c, c ∈ sends ∧ TypeUrl (sc_req c) = url) ∨
          (∃ c e, last sends = Some c ∧ sc_err c = Some e))).
Proof.
  intros Hnew Hrun.
  destruct (New_starts_empty opts t0 Hnew) as [Hres0 Hq0].
  destruct (taken_inv_run es (sys_init t0) y [] []) as (taken & Hmade & Hres).
  { simpl. by rewrite Hq0. }
  { done. }
  { done. }
  simpl in Hmade. exists taken. split; [done|].
  assert (∀ url, resources (sys_t y) !! url = sliceToMap <$> last_names url taken)
    as Hlook.
  { intros url. rewrite Hres. apply subscriptions_after. }
  split; [done|]. split.
  { intros url Hnone. rewrite Hmade. symmetry. by apply last_names_app_none. }
  intros url names y' Hlast Hstep. simpl in Hstep.
  destruct (sender_exited y); [done|]. simpl in Hstep.
  destruct (chan_recv (adsStreamCh (sys_t y))) as [[s ch]|]; [|done].
  set (t1 := set_adsStreamCh ch (sys_t y)) in *.
  assert (resources t1 !! url = Some (sliceToMap names)) as Hentry.
  { change (resources t1) with (resources (sys_t y)). by rewrite Hlook, Hlast. }
  destruct (sendExisting_calls rt s t1) as (_ & _ & _ & sends & Hs & _).
  cbv zeta in Hs.
  destruct (sendExisting_for_type rt s t1 url _ sends Hentry Hs) as [Hall Hex].
  pose proof (sendExisting_failed_last rt s t1 sends Hs) as Hfail.
  destruct (sendExisting rt s t1) as [t2 ok]. simpl in Hs, Hex, Hfail.
  injection Hstep as <-. simpl. exists sends. split; [done|]. split.
  - intros c Hc Hurl. rewrite (Hall c Hc Hurl). simpl.
    split; [apply mapToSlice_NoDup|].
    intros x. by rewrite mapToSlice_elem, sliceToMap_elem.
  - destruct ok.
    + left. destruct (Hex eq_refl) as (c & Hc & Heq).
      exists c. split; [done|]. by rewrite Heq.
    + right. by apply Hfail.
Qed.

End SubscribeCalls.

(** ** The life of a stream while the sender and the callers run *)

Section StreamLifeInterleaved.
Context (rt : Runtime).





End StreamLifeInterleaved.

(** * The theorems at concrete inputs *)

(** The ACK of stream [1] reaches the sender when its stream is [2]. *)
Lemma stale_ack_is_noop_witness :
  let t := set_adsRequestCh [ReqAck ack_A1] t_AB in
  ack_stream ack_A1 ≠ Some 2%nat ∧
  ∃ t', send_iter rt_ok CaseRequest (Some 2%nat) t = Some (Continue, Some 2%nat, t') ∧
        nonces t' = nonces t ∧ versions t' = versions t ∧ sent t' = sent t.
Proof.
  assert (ack_stream ack_A1 ≠ Some 2%nat) as Hne by (intros H; discriminate H).
  split; [exact Hne|].
  destruct (stale_ack_is_noop rt_ok ack_A1 (Some 2%nat)
              (set_adsRequestCh [ReqAck ack_A1] t_AB) [] Hne eq_refl)
    as (t' & Hiter & _ & Hn & Hv & _ & Hs).
  exists t'. repeat split; assumption.
Defined.

(** C1, as stated, at a concrete input: an ACK for the live stream [1] and
    type [A], processed by a transport that has no names subscribed for
    [A], leaves the versions as they were, so that the version of [A] is
    not the one of the ACK. *)
Lemma ack_without_names_keeps_version :
  let t := t_new accept_all in
  let r := processAckRequest rt_ok ack_A1 (Some 1%nat) t in
  ack_stream ack_A1 = Some 1%nat ∧ ack_nackErr ack_A1 = None ∧
  versions r.1 = versions t ∧
  versions r.1 !! "A" ≠ Some "1" ∧
  nonces r.1 !! "A" = Some "n1".
Proof. vm_compute. repeat split; try reflexivity. intros H; discriminate H. Qed.

(** The same ACK with names subscribed for [A]. *)
Lemma ack_bookkeeping_witness :
  ack_stream ack_A1 = Some 1%nat ∧
  ∃ t' names,
    processAckRequest rt_ok ack_A1 (Some 1%nat) t_AB =
      (t', (names, "A", "1", "n1", true)) ∧
    versions t' !! "A" = Some "1" ∧ nonces t' !! "A" = Some "n1".
Proof.
  split; [reflexivity|].
  destruct (processAckRequest rt_ok ack_A1 (Some 1%nat) t_AB)
    as [t' [[[[names url] version] nonce] send]] eqn:Hrun.
  destruct (ack_bookkeeping rt_ok ack_A1 (Some 1%nat) t_AB t' names url version
              nonce send eq_refl Hrun)
    as (_ & _ & Hsend & _ & Hack).
  vm_compute in Hsend. subst send.
  destruct (Hack eq_refl eq_refl) as (Hv & Hn & -> & -> & ->).
  exists t', names. split; [reflexivity|]. split; assumption.
Defined.

(** The ACK for [A] reaches a sender whose transport has no entry for [A]. *)
Lemma ack_without_subscription_not_sent_witness :
  let t := set_adsRequestCh [ReqAck ack_A1] (t_new accept_all) in
  ack_stream ack_A1 = Some 1%nat ∧ resources t !! "A" = None ∧
  ∃ t', send_iter rt_ok CaseRequest (Some 1%nat) t = Some (Continue, Some 1%nat, t') ∧
        sent t' = [] ∧ nonces t' !! "A" = Some "n1" ∧ versions t' = ∅.
Proof.
  split; [reflexivity|]. split; [reflexivity|].
  destruct (ack_without_subscription_not_sent rt_ok ack_A1 (Some 1%nat)
              (set_adsRequestCh [ReqAck ack_A1] (t_new accept_all)) []
              eq_refl (or_introl eq_refl) eq_refl)
    as (t' & Hiter & Hs & Hn & Hv & _).
  exists t'. split; [exact Hiter|]. split; [exact Hs|].
  split; [|exact Hv]. rewrite Hn. reflexivity.
Defined.

(** The handler rejects the response for [A] while version [0] is stored. *)
Lemma recv_enqueues_ack_or_nack_witness :
  let t := set_versions {["A" := "0"]} (t_new reject_all) in
  ErrType (verdict t resp_A1) ≠ ErrorTypeResourceTypeUnsupported ∧
  recv_iter 1%nat (RecvOk resp_A1) false t =
    (Continue, true, set_adsRequestCh [ReqAck nack_A0] t).
Proof.
  assert (ErrType (verdict (set_versions {["A" := "0"]} (t_new reject_all)) resp_A1)
          ≠ ErrorTypeResourceTypeUnsupported) as Hty
    by (intros H; discriminate H).
  split; [exact Hty|].
  exact (proj1 (recv_enqueues_ack_or_nack 1%nat resp_A1 false
                  (set_versions {["A" := "0"]} (t_new reject_all)) []
                  (rpc_error "EOF") Hty)).
Defined.

(** The first stream breaks before any response. *)
Lemma backoff_after_attempt_witness :
  let t := t_new accept_all in
  chan_cap (adsStreamCh t) = 1%nat ∧
  ∃ t', adsRunner_iter (inl (1%nat, mkStreamLife [] (rpc_error "EOF")))
          adsRunner_init t = Some (mkRunner 1 1000, t').
Proof.
  split; [reflexivity|].
  destruct (backoff_after_attempt (inl (1%nat, mkStreamLife [] (rpc_error "EOF")))
              adsRunner_init (t_new accept_all) eq_refl (le_S _ _ (le_n 0)))
    as (t' & _ & _ & Hfirst).
  exists t'. exact (Hfirst eq_refl eq_refl).
Defined.


(** A second stream is created while the handle of the first still waits. *)
Lemma stream_slot_holds_newest_witness :
  let es := [EvNewStream (inl 1%nat); EvDrain; EvPush; EvRecv (RecvErr (rpc_error "EOF"));
             EvNewStream (inl 2%nat)] in
  New rt_ok opts_ok = inl (t_new accept_all) ∧
  ∃ y, sys_run rt_ok es (sys_init (t_new accept_all)) = Some y ∧
       chan_buf (adsStreamCh (sys_t y)) = [1%nat] ∧
       ∃ y1 y2, sys_step rt_ok EvDrain y = Some y1 ∧
                sys_step rt_ok EvPush y1 = Some y2 ∧
                chan_buf (adsStreamCh (sys_t y2)) = [2%nat].
Proof.
  split; [reflexivity|].
  eexists. split; [reflexivity|]. split; [reflexivity|].
  destruct (stream_slot_holds_newest rt_ok opts_ok (t_new accept_all)
              [EvNewStream (inl 1%nat); EvDrain; EvPush;
               EvRecv (RecvErr (rpc_error "EOF")); EvNewStream (inl 2%nat)]
              _ eq_refl eq_refl)
    as (_ & _ & _ & Hdrain & _).
  destruct (Hdrain 2%nat eq_refl) as (y1 & y2 & H1 & H2 & Hbuf & _).
  exists y1, y2. repeat split; assumption.
Defined.

(** C7, as stated, at a concrete input: [A] is subscribed with [x], then
    with [y]; the sender has taken the first request only when the new
    stream comes.  The entry of [A] is the set of [x], not of [y], the names
    of the most recent call, and the request made on the new stream names
    [x]. *)
Lemma subscribe_in_queue_not_resent :
  calls_made subscribe_twice_then_connect =
    [mkResourceRequest ["x"] "A"; mkResourceRequest ["y"] "A"] ∧
  ∃ y, sys_run rt_ok subscribe_twice_then_connect (sys_init (t_new accept_all))
       = Some y ∧
       resources (sys_t y) !! "A" = Some (sliceToMap ["x"]) ∧
       resources (sys_t y) !! "A" ≠ Some (sliceToMap ["y"]) ∧
       (fun c => (TypeUrl (sc_req c), ResourceNames (sc_req c)))
         <$> sent (sys_t y) = [("A", ["x"])].
Proof.
  split; [reflexivity|].
  eexists. split; [vm_compute; reflexivity|].
  split; [vm_compute; reflexivity|]. split; [|vm_compute; reflexivity].
  intros H.
  assert (Some (sliceToMap ["x"]) = Some (sliceToMap ["y"])) as H'
    by (rewrite <- H; vm_compute; reflexivity).
  apply (inj Some) in H'.
  apply (f_equal (fun m : gmap string bool => m !! "x")) in H'.
  vm_compute in H'. discriminate H'.
Qed.

(** Both subscriptions to [A] are taken before the stream comes. *)
Lemma last_subscribe_wins_witness :
  New rt_ok opts_ok = inl (t_new accept_all) ∧
  ∃ y y',
    sys_run rt_ok subscribe_twice_taken (sys_init (t_new accept_all)) = Some y ∧
    sys_step rt_ok (EvSender CaseStream) y = Some y' ∧
    resources (sys_t y) !! "A" = Some (sliceToMap ["z"; "z"]) ∧
    ∃ c, c ∈ sent (sys_t y') ∧ TypeUrl (sc_req c) = "A" ∧
         ∀ x, x ∈ ResourceNames (sc_req c) ↔ x ∈ ["z"; "z"].
Proof.
  split; [reflexivity|].
  assert (∃ y, sys_run rt_ok subscribe_twice_taken (sys_init (t_new accept_all))
               = Some y ∧
               adsRequestCh (sys_t y) = [] ∧ sent (sys_t y) = [] ∧
               ∃ y', sys_step rt_ok (EvSender CaseStream) y = Some y' ∧
                     ∃ c, sent (sys_t y') = [c] ∧ sc_err c = None)
    as (y & Hrun & Hq & Hsent & y' & Hstep & c0 & Hsent' & Herr0).
  { eexists. split; [vm_compute; reflexivity|].
    split; [reflexivity|]. split; [reflexivity|].
    eexists. split; [vm_compute; reflexivity|].
    eexists. split; reflexivity. }
  destruct (last_subscribe_wins rt_ok opts_ok (t_new accept_all)
              subscribe_twice_taken y eq_refl Hrun)
    as (taken & Hmade & Hlook & _ & Hnext).
  rewrite Hq in Hmade. simpl in Hmade. rewrite app_nil_r in Hmade. subst taken.
  assert (last_names "A"
            [mkResourceRequest ["x"] "A"; mkResourceRequest ["z"; "z"] "A"]
          = Some ["z"; "z"]) as Hlast by reflexivity.
  exists y, y'. split; [exact Hrun|]. split; [exact Hstep|]. split.
  { rewrite Hlook, Hlast. reflexivity. }
  destruct (Hnext "A" ["z"; "z"] y' Hlast Hstep) as (sends & Hs & Hall & Hor).
  rewrite Hsent, Hsent' in Hs. simpl in Hs. subst sends.
  destruct Hor as [(c & Hc & Hurl)|(c & e & Hl & He)].
  - exists c. split; [rewrite Hsent'; exact Hc|]. split; [exact Hurl|].
    exact (proj2 (Hall c Hc Hurl)).
  - simpl in Hl. injection Hl as <-. rewrite Herr0 in He. discriminate He.
Defined.

(** ** The further properties at concrete inputs *)

Lemma names_xy_nonempty : sliceToMap ["x"; "y"] ≠ ∅.
Proof.
  intros H. apply (f_equal (fun m : gmap string bool => m !! "x")) in H.
  vm_compute in H. discriminate H.
Qed.

Lemma mapToSlice_then_sliceToMap_witness :
  map_Forall (fun _ v => v = true) (sliceToMap ["x"; "y"]) ∧
  sliceToMap (mapToSlice rt_ok (sliceToMap ["x"; "y"])) = sliceToMap ["x"; "y"].
Proof.
  split; [apply sliceToMap_values|].
  apply (mapToSlice_then_sliceToMap rt_ok), sliceToMap_values.
Defined.

(** The NACK for [A] taken by a sender on stream [1]. *)
Lemma ack_request_on_wire_witness :
  let t := set_adsRequestCh [ReqAck nack_A0] t_AB in
  ack_stream nack_A0 = Some 1%nat ∧
  resources t !! "A" = Some (sliceToMap ["x"; "y"]) ∧
  ∃ t', send_iter rt_ok CaseRequest (Some 1%nat) t = Some (Continue, Some 1%nat, t') ∧
        sent t' =
          [mkSendCall 1%nat
             (request_A "0" "n1"
                (Some (mkStatus 3 (errors_New "invalid resource")))) None].
Proof.
  split; [reflexivity|]. split; [reflexivity|].
  destruct (ack_request_on_wire rt_ok nack_A0 1%nat
              (set_adsRequestCh [ReqAck nack_A0] t_AB) [] (sliceToMap ["x"; "y"])
              eq_refl eq_refl eq_refl names_xy_nonempty)
    as (t' & Hiter & Hsent & _).
  exists t'. split; [exact Hiter|]. rewrite Hsent. vm_compute. reflexivity.
Defined.

(** A subscription to [A] with a name given twice, taken on stream [1]. *)
Lemma subscribe_request_on_wire_witness :
  let r := mkResourceRequest ["x"; "x"] "A" in
  let t := set_adsRequestCh [ReqResource r] (set_versions {["A" := "7"]} t_AB) in
  adsRequestCh t = [ReqResource r] ∧
  ∃ t', send_iter rt_ok CaseRequest (Some 1%nat) t = Some (Continue, Some 1%nat, t') ∧
        sent t' =
          [mkSendCall 1%nat (mkDiscoveryRequest "node-1" "A" ["x"; "x"] "7" "" None)
             None] ∧
        resources t' !! "B" = Some (sliceToMap ["z"]).
Proof.
  split; [reflexivity|].
  destruct (subscribe_request_on_wire rt_ok (mkResourceRequest ["x"; "x"] "A") 1%nat
              (set_adsRequestCh [ReqResource (mkResourceRequest ["x"; "x"] "A")]
                 (set_versions {["A" := "7"]} t_AB)) [] eq_refl)
    as (t' & Hiter & Hsent & _ & _ & Hother & _).
  exists t'. split; [exact Hiter|]. split; [exact Hsent|].
  rewrite Hother; [reflexivity|]. intros H; discriminate H.
Defined.

(** An ACK of stream [1] and a subscription reach a sender without a
    stream. *)
Lemma sender_without_stream_sends_nothing_witness :
  let us := [ReqAck ack_A1; ReqResource (mkResourceRequest ["w"] "C")] in
  let t := set_adsRequestCh us t_AB in
  Forall (fun u => ∀ a, u = ReqAck a → ack_stream a ≠ None) us ∧
  ∃ t', send_requests rt_ok 2 None t = Some (None, t') ∧
        sent t' = [] ∧ versions t' = ∅ ∧ nonces t' = ∅ ∧
        resources t' !! "C" = Some (sliceToMap ["w"]).
Proof.
  assert (Forall (fun u => ∀ a, u = ReqAck a → ack_stream a ≠ None)
            [ReqAck ack_A1; ReqResource (mkResourceRequest ["w"] "C")]) as Htag.
  { repeat constructor; intros a [= <-] H; discriminate H. }
  split; [exact Htag|].
  destruct (sender_without_stream_sends_nothing rt_ok _
              (set_adsRequestCh
                 [ReqAck ack_A1; ReqResource (mkResourceRequest ["w"] "C")] t_AB)
              eq_refl Htag)
    as (t' & Hrun & _ & Hsent & Hv & Hn & Hres).
  exists t'. split; [exact Hrun|]. split; [exact Hsent|].
  split; [exact Hv|]. split; [exact Hn|]. rewrite Hres. reflexivity.
Defined.

(** The subscription of the scenario, made before the first stream. *)
Lemma subscription_waits_for_stream_witness :
  let r := mkResourceRequest ["x"; "y"] "A" in
  let t := set_adsRequestCh [ReqResource r] (t_new accept_all) in
  adsRequestCh t = [ReqResource r] ∧
  ∃ t', send_iter rt_ok CaseRequest None t = Some (Continue, None, t') ∧
        sent t' = [] ∧
        ∃ c, c ∈ sent (sendExisting rt_ok 1%nat t').1 ∧
             TypeUrl (sc_req c) = "A" ∧ ResponseNonce (sc_req c) = "" ∧
             ∀ x, x ∈ ResourceNames (sc_req c) ↔ x ∈ ["x"; "y"].
Proof.
  split; [reflexivity|].
  destruct (subscription_waits_for_stream rt_ok (mkResourceRequest ["x"; "y"] "A")
              (set_adsRequestCh [ReqResource (mkResourceRequest ["x"; "y"] "A")]
                 (t_new accept_all)) [] eq_refl)
    as (t' & Hiter & Hsent & Hnext).
  exists t'. split; [exact Hiter|]. split; [exact Hsent|].
  injection Hiter as <-.
  destruct (Hnext 1%nat _ eq_refl eq_refl)
    as (c & Hc & _ & Hurl & _ & Hnames & _ & Hnonce).
  exists c. split; [|split; [exact Hurl|split; [exact Hnonce|exact Hnames]]].
  exact Hc.
Defined.

(** The ACK for [A], then a new subscription to [A], on stream [1]. *)
Lemma subscribe_after_ack_witness :
  let r := mkResourceRequest ["x"; "y"; "w"] "A" in
  let t := set_adsRequestCh [ReqAck ack_A1; ReqResource r] t_AB in
  rr_url r = ack_url ack_A1 ∧
  ∃ stream' t' c1 c2,
    send_requests rt_ok 2 (Some 1%nat) t = Some (stream', t') ∧
    sent t' = [c1; c2] ∧
    ResponseNonce (sc_req c2) = "n1" ∧ VersionInfo (sc_req c2) = "1".
Proof.
  split; [reflexivity|].
  destruct (subscribe_after_ack rt_ok ack_A1 (mkResourceRequest ["x"; "y"; "w"] "A")
              1%nat
              (set_adsRequestCh
                 [ReqAck ack_A1; ReqResource (mkResourceRequest ["x"; "y"; "w"] "A")]
                 t_AB) [] (sliceToMap ["x"; "y"])
              eq_refl eq_refl eq_refl eq_refl names_xy_nonempty eq_refl)
    as (stream' & t' & c1 & c2 & Hrun & Hsent & _ & _ & _ & Hnonce & Hver).
  exists stream', t', c1, c2.
  split; [exact Hrun|]. split; [exact Hsent|]. split; [exact Hnonce|exact Hver].
Defined.

(** Version [3] and nonce [n0] are stored for [A] when stream [2] comes
    to a sender on stream [1]; every [Send] succeeds. *)
Lemma subscribe_after_new_stream_witness :
  let r := mkResourceRequest ["x"] "A" in
  let t := set_adsStreamCh (mkChan 1 [2%nat])
             (set_adsRequestCh [ReqResource r]
                (set_nonces {["A" := "n0"]} (set_versions {["A" := "3"]} t_AB))) in
  chan_buf (adsStreamCh t) = [2%nat] ∧
  adsRequestCh t = [ReqResource r] ∧
  ∃ t1 stream2 t2 c,
    send_iter rt_ok CaseStream (Some 1%nat) t = Some (Continue, Some 2%nat, t1) ∧
    send_iter rt_ok CaseRequest (Some 2%nat) t1 = Some (Continue, stream2, t2) ∧
    last (sent t2) = Some c ∧
    ResponseNonce (sc_req c) = "" ∧ VersionInfo (sc_req c) = "3".
Proof.
  split; [reflexivity|]. split; [reflexivity|].
  set (t := set_adsStreamCh (mkChan 1 [2%nat])
              (set_adsRequestCh [ReqResource (mkResourceRequest ["x"] "A")]
                 (set_nonces {["A" := "n0"]}
                    (set_versions {["A" := "3"]} t_AB)))).
  assert (∃ t1c, send_iter rt_ok CaseStream (Some 1%nat) t
                 = Some (Continue, Some 2%nat, t1c) ∧
                 Forall (fun c => sc_err c = None) (sent t1c))
    as (t1c & Hc1 & Hall).
  { eexists. split; [vm_compute; reflexivity|]. vm_compute. repeat constructor. }
  destruct (subscribe_after_new_stream rt_ok (mkResourceRequest ["x"] "A")
              2%nat (Some 1%nat) t [] eq_refl eq_refl)
    as (stream1 & t1 & calls & stream2 & t2 & H1 & Hs & H2 & Hgood & _).
  rewrite Hc1 in H1. injection H1 as <- <-.
  change (sent t) with (@nil SendCall) in Hs. simpl in Hs. subst calls.
  destruct (Hgood Hall) as (_ & c & Hsent2 & _ & _ & _ & Hnonce & Hver).
  exists t1c, stream2, t2, c.
  split; [exact Hc1|]. split; [exact H2|].
  split; [rewrite Hsent2; apply last_snoc|]. split; [exact Hnonce|exact Hver].
Defined.

(** A subscription to [A] without names, then a new stream on which every
    [Send] succeeds. *)
Lemma empty_subscribe_resent_as_wildcard_witness :
  let t := set_adsRequestCh [ReqResource (mkResourceRequest [] "A")] t_AB in
  ∃ stream' t',
    send_iter rt_ok CaseRequest None t = Some (Continue, stream', t') ∧
    resources t' !! "A" = Some ∅ ∧
    ∃ c, c ∈ sent (sendExisting rt_ok 1%nat t').1 ∧
         TypeUrl (sc_req c) = "A" ∧ ResourceNames (sc_req c) = [].
Proof.
  set (t := set_adsRequestCh [ReqResource (mkResourceRequest [] "A")] t_AB).
  destruct (empty_subscribe_resent_as_wildcard rt_ok "A") as (Htake & _ & Hnext).
  destruct (Htake None t [] eq_refl) as (stream' & t' & Hiter & Hentry).
  assert (∃ tc, send_iter rt_ok CaseRequest None t = Some (Continue, None, tc) ∧
                sent tc = [] ∧
                Forall (fun c => sc_err c = None)
                  (sent (sendExisting rt_ok 1%nat tc).1))
    as (tc & Hc & Hsent & Hall).
  { eexists. split; [vm_compute; reflexivity|]. split; [reflexivity|].
    vm_compute. repeat constructor. }
  rewrite Hc in Hiter. injection Hiter as <- <-.
  exists None, tc. split; [exact Hc|]. split; [exact Hentry|].
  destruct (Hnext tc 1%nat (sent (sendExisting rt_ok 1%nat tc).1) Hentry)
    as [_ [(c & Hin & Hurl & Hnames)|(c & e & Hl & He)]].
  - by rewrite Hsent.
  - exists c. split; [exact Hin|]. split; [exact Hurl|exact Hnames].
  - apply last_Some_elem_of in Hl.
    rewrite (proj1 (Forall_forall _ _) Hall c Hl) in He. discriminate He.
Defined.

(** The first stream reaches a sender before any subscription. *)
Lemma new_stream_without_subscriptions_witness :
  let t := set_adsStreamCh (mkChan 1 [1%nat]) (t_new accept_all) in
  resources t = ∅ ∧
  ∃ t', send_iter rt_ok CaseStream None t = Some (Continue, Some 1%nat, t') ∧
        sent t' = [].
Proof.
  split; [reflexivity|].
  destruct (new_stream_without_subscriptions rt_ok 1%nat
              (set_adsStreamCh (mkChan 1 [1%nat]) (t_new accept_all))
              eq_refl eq_refl)
    as (t' & Hiter & Hsent & _).
  exists t'. split; [exact Hiter|exact Hsent].
Defined.

(** The handler does not know the type of the response. *)
Lemma unsupported_response_is_skipped_witness :
  let t := t_new unsupported_all in
  ErrType (verdict t resp_A1) = ErrorTypeResourceTypeUnsupported ∧
  recv_iter 1%nat (RecvOk resp_A1) false t = (Continue, true, t).
Proof.
  split; [reflexivity|].
  exact (proj1 (unsupported_response_is_skipped 1%nat resp_A1 false
                  (t_new unsupported_all) [] (rpc_error "EOF") eq_refl)).
Defined.

(** Three attempts in a row fail to create the stream. *)
Lemma failed_attempts_back_off_witness :
  let errs := [rpc_error "e1"; rpc_error "e2"; rpc_error "e3"] in
  errs ≠ [] ∧
  ∃ y, sys_run rt_ok (EvNewStream ∘ inr <$> errs) (sys_init (t_new accept_all))
       = Some y ∧
       runner y = mkRunner 3 3000 ∧ reported (sys_t y) = errs.
Proof.
  assert ([rpc_error "e1"; rpc_error "e2"; rpc_error "e3"] ≠ []) as Hne
    by (intros H; discriminate H).
  split; [exact Hne|].
  assert (Z.of_nat (length [rpc_error "e1"; rpc_error "e2"; rpc_error "e3"])
          ≤ int_max) as Hmax by (vm_compute; intros H; discriminate H).
  destruct (failed_attempts_back_off rt_ok
              [rpc_error "e1"; rpc_error "e2"; rpc_error "e3"]
              (t_new accept_all) Hne Hmax)
    as (y & Hrun & Hrunner & _ & Hrep & _).
  exists y. split; [exact Hrun|]. split; [exact Hrunner|exact Hrep].
Defined.

Lemma New_initial_state_witness :
  New rt_ok opts_ok = inl (t_new accept_all) ∧
  resources (t_new accept_all) = ∅ ∧
  adsStreamCh (t_new accept_all) = make_chan 1 ∧
  backoff (t_new accept_all) = DefaultExponential_Backoff rt_ok.
Proof.
  split; [reflexivity|].
  destruct (New_initial_state rt_ok opts_ok (t_new accept_all) eq_refl)
    as (Hres & _ & _ & _ & Hch & _ & _ & _ & _ & _ & Hb).
  split; [exact Hres|]. split; [exact Hch|exact Hb].
Defined.

(** The NACK of the scenario, in a run from construction. *)
Lemma nack_never_without_names_witness :
  let c := mkSendCall 1%nat
             (request_A "" "n1" (Some (mkStatus 3 (errors_New "invalid resource"))))
             None in
  New rt_ok opts_reject = inl (t_new reject_all) ∧
  (∃ y, sys_run rt_ok subscribe_connect_nack (sys_init (t_new reject_all)) = Some y ∧
        c ∈ sent (sys_t y)) ∧
  ErrorDetail (sc_req c) ≠ None ∧
  ResourceNames (sc_req c) ≠ [].
Proof.
  split; [reflexivity|].
  assert (ErrorDetail
            (request_A "" "n1" (Some (mkStatus 3 (errors_New "invalid resource"))))
          ≠ None) as Hd by (intros H; discriminate H).
  assert (∃ y, sys_run rt_ok subscribe_connect_nack (sys_init (t_new reject_all))
               = Some y ∧
               mkSendCall 1%nat
                 (request_A "" "n1"
                    (Some (mkStatus 3 (errors_New "invalid resource")))) None
               ∈ sent (sys_t y)) as (y & Hrun & Hc).
  { eexists. split; [vm_compute; reflexivity|]. right. left. }
  split; [exists y; split; [exact Hrun|exact Hc]|]. split; [exact Hd|].
  exact (nack_never_without_names rt_ok opts_reject (t_new reject_all)
           subscribe_connect_nack y _ eq_refl Hrun Hc Hd).
Defined.

Lemma only_published_streams_used_witness :
  New rt_ok opts_reject = inl (t_new reject_all) ∧
  ∃ y, sys_run rt_ok subscribe_connect_nack (sys_init (t_new reject_all)) = Some y ∧
       published y = [1%nat] ∧
       ∀ c, c ∈ sent (sys_t y) → sc_stream c ∈ published y.
Proof.
  split; [reflexivity|].
  assert (∃ y, sys_run rt_ok subscribe_connect_nack (sys_init (t_new reject_all))
               = Some y ∧ published y = [1%nat]) as (y & Hrun & Hpub).
  { eexists. split; [vm_compute; reflexivity|reflexivity]. }
  exists y. split; [exact Hrun|]. split; [exact Hpub|].
  exact (proj1 (proj2 (only_published_streams_used rt_ok opts_reject
                         (t_new reject_all) subscribe_connect_nack y
                         eq_refl Hrun))).
Defined.

(** The receiver reads the response for [A]. *)
Lemma tables_written_by_sender_only_witness :
  ∃ y y',
    sys_run rt_ok subscribe_then_connect (sys_init (t_new accept_all)) = Some y ∧
    sys_step rt_ok (EvRecv (RecvOk resp_A1)) y = Some y' ∧
    resources (sys_t y') = resources (sys_t y) ∧
    versions (sys_t y') = versions (sys_t y) ∧
    nonces (sys_t y') = nonces (sys_t y).
Proof.
  assert (∃ y, sys_run rt_ok subscribe_then_connect (sys_init (t_new accept_all))
               = Some y ∧
               ∃ y', sys_step rt_ok (EvRecv (RecvOk resp_A1)) y = Some y')
    as (y & Hrun & y' & Hstep).
  { eexists. split; [vm_compute; reflexivity|].
    eexists. vm_compute. reflexivity. }
  exists y, y'. split; [exact Hrun|]. split; [exact Hstep|].
  destruct (tables_written_by_sender_only rt_ok _ y y' Hstep)
    as (Hr & Hv & Hn & _).
  split; [|split].
  - apply Hr. intros [H _]. discriminate H.
  - apply Hv. intros [H _]. discriminate H.
  - apply Hn; [intros [H _]; discriminate H|intros H; discriminate H].
Defined.

(** [Close] is called after a first failed attempt; the runner returns and
    the connection is closed. *)
Lemma close_waits_for_runner_witness :
  let es := [EvProg (EvNewStream (inr (rpc_error "unavailable"))); EvCloseCancel;
             EvProg EvRunnerExit; EvCloseDone] in
  ∃ z, sysc_run rt_ok es (sysc_init (t_new accept_all)) = Some z ∧
       cc_closed z = true ∧ runner_pc (sysc z) = Exited.
Proof.
  assert (∃ z, sysc_run rt_ok
                 [EvProg (EvNewStream (inr (rpc_error "unavailable")));
                  EvCloseCancel; EvProg EvRunnerExit; EvCloseDone]
                 (sysc_init (t_new accept_all)) = Some z ∧ cc_closed z = true)
    as (z & Hrun & Hcc).
  { eexists. split; [vm_compute; reflexivity|reflexivity]. }
  exists z. split; [exact Hrun|]. split; [exact Hcc|].
  exact (proj1 (proj1 (close_waits_for_runner rt_ok _ (t_new accept_all) z Hrun)
                  Hcc)).
Defined.

(** A sender on stream [1] takes stream [2], on which [Send] fails. *)
Lemma new_stream_replaces_old_witness :
  let t := set_adsStreamCh (mkChan 1 [2%nat]) t_AB in
  chan_buf (adsStreamCh t) = [2%nat] ∧
  ∃ t', send_iter rt_broken CaseStream (Some 1%nat) t = Some (Continue, None, t') ∧
        nonces t' = ∅.
Proof.
  split; [reflexivity|].
  destruct (new_stream_replaces_old rt_broken 2%nat (Some 1%nat)
              (set_adsStreamCh (mkChan 1 [2%nat]) t_AB) eq_refl)
    as (stream' & t' & calls & Hiter & _ & _ & _ & _ & Hn & _).
  exists t'. split; [|exact Hn].
  rewrite Hiter. f_equal. f_equal. f_equal.
  vm_compute in Hiter. injection Hiter as <- _. reflexivity.
Defined.


(** * Scenarios

    Runs of the transition system from a fresh transport. *)

(** A subscription made before any stream exists is not sent ... *)
Example scenario_no_stream_no_send :
  sent ∘ sys_t <$> sys_run rt_ok (take 2 subscribe_then_connect)
                     (sys_init (t_new accept_all)) = Some [].
Proof. vm_compute. reflexivity. Qed.

(** ... until the stream is there: names [x], [y], no version, no nonce. *)
Example scenario_sent_on_new_stream :
  sent ∘ sys_t <$> sys_run rt_ok subscribe_then_connect
                     (sys_init (t_new accept_all)) =
    Some [mkSendCall 1%nat (request_A "" "" None) None].
Proof. vm_compute. reflexivity. Qed.

(** An accepted response is ACKed with its version and nonce. *)
Example scenario_ack :
  (fun y => (sent (sys_t y), versions (sys_t y) !! "A", nonces (sys_t y) !! "A"))
    <$> sys_run rt_ok
          (subscribe_then_connect ++ [EvRecv (RecvOk resp_A1); EvSender CaseRequest])
          (sys_init (t_new accept_all)) =
    Some ([mkSendCall 1%nat (request_A "" "" None) None;
           mkSendCall 1%nat (request_A "1" "n1" None) None],
          Some "1", Some "n1").
Proof. vm_compute. reflexivity. Qed.

(** A rejected response is NACKed with the version accepted before. *)
Example scenario_nack :
  (fun y => (sent (sys_t y), versions (sys_t y) !! "A", nonces (sys_t y) !! "A"))
    <$> sys_run rt_ok
          (subscribe_then_connect ++ [EvRecv (RecvOk resp_A1); EvSender CaseRequest])
          (sys_init (set_versions {["A" := "0"]} (t_new reject_all))) =
    Some ([mkSendCall 1%nat (request_A "0" "" None) None;
           mkSendCall 1%nat
             (request_A "0" "n1"
                (Some (mkStatus 3 (errors_New "invalid resource")))) None],
          Some "0", Some "n1").
Proof. vm_compute. reflexivity. Qed.

(** A response of an unsupported type is neither ACKed nor NACKed. *)
Example scenario_unsupported :
  (fun y => (adsRequestCh (sys_t y), runner_pc y))
    <$> sys_run rt_ok
          (subscribe_then_connect ++ [EvRecv (RecvOk resp_A1)])
          (sys_init (t_new unsupported_all)) =
    Some ([], AtRecv 1%nat true).
Proof. vm_compute. reflexivity. Qed.

(** The ACK made on stream [1] is dropped by a sender that is on stream
    [2] by the time it takes the ACK off the queue: stream [2] only sees
    the request that reopens the subscription. *)
Example scenario_stale_ack :
  (fun y => (drop 1 (sent (sys_t y)), versions (sys_t y) !! "A",
             nonces (sys_t y) !! "A", sender_stream y))
    <$> sys_run rt_ok
          (subscribe_then_connect ++
           [EvRecv (RecvOk resp_A1); EvRecv (RecvErr (rpc_error "EOF"));
            EvNewStream (inl 2%nat); EvDrain; EvPush; EvSender CaseStream;
            EvSender CaseRequest])
          (sys_init (t_new accept_all)) =
    Some ([mkSendCall 2%nat (request_A "" "" None) None], None, None, Some 2%nat).
Proof. vm_compute. reflexivity. Qed.

(** The runner after a stream that broke without a response, and after
    one that delivered a response. *)
Example scenario_backoff :
  runner <$> sys_run rt_ok
               [EvNewStream (inl 1%nat); EvDrain; EvPush;
                EvRecv (RecvErr (rpc_error "EOF"));
                EvNewStream (inr (rpc_error "unavailable"))]
               (sys_init (t_new accept_all)) = Some (mkRunner 2 2000) ∧
  runner <$> sys_run rt_ok
               [EvNewStream (inr (rpc_error "unavailable"));
                EvNewStream (inl 1%nat); EvDrain; EvPush;
                EvRecv (RecvOk resp_A1); EvRecv (RecvErr (rpc_error "EOF"))]
               (sys_init (t_new accept_all)) = Some (mkRunner 0 0).
Proof. vm_compute. split; reflexivity. Qed.
